(** * springboard: trade aggregation, market replay and the naive portfolio

    A shallow embedding of [poloniex.py] ([get_trades]), [data.py]
    ([PoloniexDataHandler]) and [portfolio.py] ([NaivePortfolio]).

    Conventions of the embedding:
    - prices, amounts and every pandas statistic are rationals ([Q]); the
      Python code computes them in floating point, the embedding in exact
      arithmetic;
    - a signal's [strength] is a Python float, held as the exact rational
      value of that double; the product [100 * strength] whose floor sizes
      an order is rounded to a double as Python's float multiplication does
      ([dbl_round]), since that rounding can change the integer floor;
    - timestamps are Unix seconds ([Z]); [unix_time] is read as the identity
      (the host clock is taken to be on UTC);
    - Python dicts are stdpp [gmap]s with string keys; a missing key raises
      [KeyError], modelled by the [Err] branch of [res];
    - the shared event queue is a [list (option event)]: Python's [None] can
      be put on it, and is the [None] item. *)

From Stdlib Require Import QArith Qround Lqa ZArith List String Bool Lia Sorted.
From stdpp Require Import base gmap strings list.

Import ListNotations.
Open Scope Z_scope.

(** ** Python exceptions and results *)

Inductive exn := KeyError | IndexError | AttributeError.

Inductive res (A : Type) :=
| Ok (a : A)
| Err (e : exn).
Arguments Ok {A} a.
Arguments Err {A} e.

Definition res_bind {A B} (r : res A) (k : A -> res B) : res B :=
  match r with Ok a => k a | Err e => Err e end.

Notation "'let!' x := r 'in' k" := (res_bind r (fun x => k))
  (at level 200, x name, r at level 100, k at level 200).

(** ** Trades and hourly statistics (poloniex.py) *)

(** One row of [returnTradeHistory] after [format_dtypes]: the date becomes
    the index, [type] becomes the 0/1 indicator of [contains('buy')]. *)
Record trade := mkTrade {
  globalTradeID : Z;
  tradeID : Z;
  date : Z;
  type_ : string;
  rate : Q;
  amount : Q;
  total : Q
}.

(** The numeric columns that [groupby('hour').describe()] summarises. *)
Inductive field := FGlobalTradeID | FTradeID | FRate | FAmount | FTotal | FType.

Definition fields : list field :=
  [FGlobalTradeID; FTradeID; FRate; FAmount; FTotal; FType].

(** [str.contains] *)
Fixpoint contains (s pat : string) : bool :=
  String.prefix pat s ||
  match s with
  | EmptyString => false
  | String _ s' => contains s' pat
  end.

Definition field_value (f : field) (t : trade) : Q :=
  match f with
  | FGlobalTradeID => inject_Z (globalTradeID t)
  | FTradeID => inject_Z (tradeID t)
  | FRate => rate t
  | FAmount => amount t
  | FTotal => total t
  | FType => if contains (type_ t) "buy"%string then 1%Q else 0%Q
  end.

(** The statistic tuple of [describe()]. *)
Record stat := mkStat {
  s_count : Q; s_mean : Q; s_std : Q; s_min : Q;
  s_p25 : Q; s_p50 : Q; s_p75 : Q; s_max : Q
}.

(** One row of the hourly frame: a [(column, statistic)] MultiIndex. *)
Definition row := field -> stat.

(** A frame: its index (the hour period, as hours since the epoch) with its
    rows, in frame order. *)
Definition frame := list (Z * row).

(** *** [describe()] of one column *)

Fixpoint insert_Q (x : Q) (l : list Q) : list Q :=
  match l with
  | [] => [x]
  | y :: l' => if Qle_bool x y then x :: l else y :: insert_Q x l'
  end.

Definition sort_Q (l : list Q) : list Q := fold_right insert_Q [] l.

Definition sum_Q (l : list Q) : Q := fold_right Qplus 0%Q l.

Definition nth_Q (l : list Q) (i : Z) : Q := nth (Z.to_nat i) l 0%Q.

(** pandas' default [linear] interpolation of a quantile over sorted data. *)
Definition quantile (xs : list Q) (p : Q) : Q :=
  let n := Z.of_nat (length xs) in
  let h := (inject_Z (n - 1) * p)%Q in
  let i := Qfloor h in
  let frac := (h - inject_Z i)%Q in
  if (i + 1 <? n)%Z
  then (nth_Q xs i + frac * (nth_Q xs (i + 1) - nth_Q xs i))%Q
  else nth_Q xs i.

(** *** Row arithmetic of the overlap merge *)

Definition stat_map (g : Q -> Q) (a : stat) : stat :=
  mkStat (g (s_count a)) (g (s_mean a)) (g (s_std a)) (g (s_min a))
         (g (s_p25 a)) (g (s_p50 a)) (g (s_p75 a)) (g (s_max a)).

Definition stat_zip (g : Q -> Q -> Q) (a b : stat) : stat :=
  mkStat (g (s_count a) (s_count b)) (g (s_mean a) (s_mean b))
         (g (s_std a) (s_std b)) (g (s_min a) (s_min b))
         (g (s_p25 a) (s_p25 b)) (g (s_p50 a) (s_p50 b))
         (g (s_p75 a) (s_p75 b)) (g (s_max a) (s_max b)).

(** [new_row[col]['count'] = trade_count] *)
Definition set_count (a : stat) (c : Q) : stat :=
  mkStat c (s_mean a) (s_std a) (s_min a) (s_p25 a) (s_p50 a) (s_p75 a) (s_max a).

(** Lines 40-48 of [get_trades]:
    [trade_count = row1.tradeID['count'] + row2.tradeID['count']],
    [new_row = ((row1 * row1.tradeID['count']) + (row2 * row2.tradeID['count'])) / trade_count],
    then every column's [count] is set to [trade_count]. *)
Definition merge_rows (row1 row2 : row) : row :=
  let c1 := s_count (row1 FTradeID) in
  let c2 := s_count (row2 FTradeID) in
  let trade_count := (c1 + c2)%Q in
  let new_row := fun f =>
    stat_map (fun x => x / trade_count)%Q
      (stat_zip Qplus (stat_map (fun x => x * c1)%Q (row1 f))
                      (stat_map (fun x => x * c2)%Q (row2 f))) in
  fun f => set_count (new_row f) trade_count.

(** *** Frame operations *)

Definition frame_min_key (df : frame) : option Z :=
  match df with
  | [] => None
  | (k, _) :: rest => Some (fold_left (fun m p => Z.min m (fst p)) rest k)
  end.

Definition frame_max_key (df : frame) : option Z :=
  match df with
  | [] => None
  | (k, _) :: rest => Some (fold_left (fun m p => Z.max m (fst p)) rest k)
  end.

(** [df.ix[k]] on a row label *)
Fixpoint frame_lookup (df : frame) (k : Z) : option row :=
  match df with
  | [] => None
  | (k', r) :: rest => if (k' =? k)%Z then Some r else frame_lookup rest k
  end.

(** [df.ix[k] = r] *)
Definition frame_set (df : frame) (k : Z) (r : row) : frame :=
  map (fun p => if (fst p =? k)%Z then (k, r) else p) df.

(** [df[df.index != k]] *)
Definition frame_drop (df : frame) (k : Z) : frame :=
  filter (fun p => negb (fst p =? k)%Z) df.

(** [trades_df.tradeID['count'].sum()] *)
Definition count_sum (df : frame) : Q :=
  sum_Q (map (fun p => s_count (snd p FTradeID)) df).

(** [x % 50000 == 0] on a rational [x] *)
Definition mod_50000_is_0 (x : Q) : bool :=
  (Qnum x mod (50000 * Zpos (Qden x)) =? 0)%Z.

(** [need_to_fetch = lambda t: len(t) == 0 or t.tradeID['count'].sum() % 50000 == 0] *)
Definition need_to_fetch (df : frame) : bool :=
  match df with
  | [] => true
  | _ => mod_50000_is_0 (count_sum df)
  end.

(** Lines 38-54: the overlap check, the merge, and [pd.concat]. *)
Definition page_step (trades_df hourly_stats : frame) : res frame :=
  match frame_min_key trades_df, frame_max_key hourly_stats with
  | Some kmin, Some kmax =>
      if (kmin =? kmax)%Z then
        match frame_lookup trades_df kmin, frame_lookup hourly_stats kmin with
        | Some row1, Some row2 =>
            Ok (frame_set trades_df kmin (merge_rows row1 row2)
                ++ frame_drop hourly_stats kmin)
        | _, _ => Err KeyError
        end
      else Ok (trades_df ++ hourly_stats)
  | _, _ => Ok (trades_df ++ hourly_stats)
  end.

(** [trades.index.min()] of a non-empty page *)
Definition min_date (t0 : trade) (ts : list trade) : Z :=
  fold_left (fun m t => Z.min m (date t)) ts (date t0).

(** [trades_df.sort_index()]: a stable insertion sort on the index *)
Fixpoint insert_row (p : Z * row) (df : frame) : frame :=
  match df with
  | [] => [p]
  | q :: rest => if (fst p <? fst q)%Z then p :: df else q :: insert_row p rest
  end.

Definition sort_index (df : frame) : frame := fold_right insert_row [] df.

Section TradeAggregator.
(** The sample standard deviation is a floating-point square root in the
    library; it is kept abstract: no claim depends on its value. *)
Variable std_dev : list Q -> Q.

Definition describe (xs : list Q) : stat :=
  let s := sort_Q xs in
  {| s_count := inject_Z (Z.of_nat (length xs));
     s_mean := (sum_Q xs / inject_Z (Z.of_nat (length xs)))%Q;
     s_std := std_dev xs;
     s_min := nth_Q s 0;
     s_p25 := quantile s (1#4)%Q;
     s_p50 := quantile s (1#2)%Q;
     s_p75 := quantile s (3#4)%Q;
     s_max := nth_Q s (Z.of_nat (length xs) - 1) |}.

(** [trades['hour'] = trades.index.to_period('1H')] *)
Definition hour_of (t : trade) : Z := date t / 3600.

Fixpoint insert_Z (x : Z) (l : list Z) : list Z :=
  match l with
  | [] => [x]
  | y :: l' => if (x <? y)%Z then x :: l
               else if (x =? y)%Z then l else y :: insert_Z x l'
  end.

(** the sorted distinct group keys of [groupby('hour')] *)
Definition group_keys (ts : list trade) : list Z :=
  fold_right (fun t acc => insert_Z (hour_of t) acc) [] ts.

(** [trades.groupby('hour').describe().unstack()] *)
Definition hourly_stats_of (ts : list trade) : frame :=
  map (fun k =>
         let g := filter (fun t => (hour_of t =? k)%Z) ts in
         (k, fun f => describe (map (field_value f) g)))
      (group_keys ts).

(** The upstream feed: [poloniex_api('returnTradeHistory', ...)] for the
    currency pair, as a function of the requested [start] and [end]. *)
Variable feed : Z -> Z -> list trade.

(** The [while] loop of [get_trades] (lines 18-56). It also returns the
    windows [(start, end)] requested, in order. [fuel] bounds the number of
    iterations; [None] means it ran out. *)
Fixpoint fetch_loop (fuel : nat) (start end_ : Z) (trades_df : frame)
    (reqs : list (Z * Z)) : option (res (frame * list (Z * Z))) :=
  match fuel with
  | O => None
  | S fuel' =>
      if need_to_fetch trades_df then
        let reqs' := reqs ++ [(start, end_)] in
        match feed start end_ with
        | [] => Some (Ok (trades_df, reqs'))
        | t0 :: ts =>
            let end' := min_date t0 ts in
            match page_step trades_df (hourly_stats_of (t0 :: ts)) with
            | Ok df' => fetch_loop fuel' start end' df' reqs'
            | Err e => Some (Err e)
            end
        end
      else Some (Ok (trades_df, reqs))
  end.

(** [get_trades(currency_pair, start, end)]: the loop, then [sort_index],
    the [market] column, and the final report, which reads
    [trades_df.tradeID]: on a frame that never received a page that column
    does not exist and the attribute access raises. *)
Definition get_trades (fuel : nat) (currency_pair : string) (start end_ : Z)
    : option (res (string * frame)) :=
  match fetch_loop fuel start end_ [] [] with
  | None => None
  | Some (Err e) => Some (Err e)
  | Some (Ok (trades_df, _)) =>
      let trades_df := sort_index trades_df in
      match trades_df with
      | [] => Some (Err AttributeError)
      | _ => Some (Ok (currency_pair, trades_df))
      end
  end.

End TradeAggregator.

(** ** Events (the [event] module's classes) *)

(** A market snapshot: one row of a [get_trades] frame as yielded by
    [iterrows()]; its [name] is the row's index. *)
Definition bar : Type := (Z * row)%type.

(** Rounding of an exact product to the nearest IEEE-754 binary64 value
    (53-bit significand, ties to even), as [100 * strength] is rounded by
    Python's float multiplication. The exponent is not bounded: this leaves
    every floor of [100 * strength] unchanged (a product of [100] and a
    non-zero double never rounds to zero, and a subnormal product is far
    from an integer), except past the largest double
    ([|strength| > 1.7e306]), where Python's product is infinite and
    [floor] raises [OverflowError]; that range is not modelled. *)
Definition dbl_round (x : Q) : Q :=
  let a := Z.abs (Qnum x) in
  let b := Zpos (Qden x) in
  if (a =? 0)%Z then 0%Q else
  (* [l = floor(log2 |x|)] *)
  let k := Z.log2 a - Z.log2 b in
  let l := if (0 <=? k)%Z
           then (if (b * 2 ^ k <=? a)%Z then k else k - 1)
           else (if (b <=? a * 2 ^ (- k))%Z then k else k - 1) in
  (* [|x| = n / d * 2^e] with [2^52 <= n / d < 2^53] *)
  let e := l - 52 in
  let n := if (0 <=? e)%Z then a else a * 2 ^ (- e) in
  let d := if (0 <=? e)%Z then b * 2 ^ e else b in
  let q := n / d in
  let r := n mod d in
  let m := if (2 * r <? d)%Z then q
           else if (d <? 2 * r)%Z then q + 1
           else if Z.even q then q else q + 1 in
  let sm := Z.sgn (Qnum x) * m in
  if (0 <=? e)%Z then inject_Z (sm * 2 ^ e) else Qmake sm (Z.to_pos (2 ^ (- e))).

Record signal := mkSignal {
  sig_market : string;
  sig_signal_type : string;
  sig_strength : Q;
  sig_market_snapshot : bar
}.

Record order := mkOrder {
  ord_market : string;
  ord_direction : string;
  ord_quantity : Z;
  ord_price : Q
}.

Record fill := mkFill {
  fill_market : string;
  fill_direction : string;
  fill_quantity : Z;
  fill_price : Q;
  fill_commission : Q
}.

(** The [type] attribute of an event is its constructor. *)
Inductive event :=
| MarketEvent
| SignalEvent (s : signal)
| OrderEvent (o : order)
| FillEvent (f : fill).

(** The shared [Queue]; [None] is Python's [None] put on it. *)
Definition queue : Type := list (option event).

(** ** PoloniexDataHandler (data.py) *)

Record data_handler := mkDataHandler {
  dh_markets : list string;
  dh_market_data : gmap string frame;
  (** what is left of each market's [iterrows()] iterator *)
  dh_market_snapshots : gmap string (list bar);
  dh_latest_market_data : gmap string (list bar);
  dh_continue_backtest : bool
}.

(** [__init__]; [fetched m] is the frame [poloniex.get_trades(m, start, end)]
    returned for market [m] in [get_all_market_data]. *)
Definition init_data_handler (markets : list string) (fetched : string -> frame)
    : data_handler :=
  {| dh_markets := markets;
     dh_market_data := list_to_map (map (fun m => (m, fetched m)) markets);
     dh_market_snapshots := list_to_map (map (fun m => (m, fetched m)) markets);
     dh_latest_market_data := list_to_map (map (fun m => (m, @nil bar)) markets);
     dh_continue_backtest := true |}.

(** Python's [l[i:]] *)
Definition py_slice_from {A} (l : list A) (i : Z) : list A :=
  let n := Z.of_nat (length l) in
  let st := if (i <? 0)%Z then Z.max 0 (n + i) else Z.min i n in
  drop (Z.to_nat st) l.

Definition unknown_symbol_msg : string :=
  "That symbol is not available in the historical data set.".

(** [get_latest_market_data(market, N)]: the lines printed, and the value
    returned. *)
Definition get_latest_market_data (dh : data_handler) (market : string) (N : Z)
    : list string * option bar :=
  match dh_latest_market_data dh !! market with
  | None => ([unknown_symbol_msg], None)
  | Some snapshot_list =>
      match py_slice_from snapshot_list (- N) with
      | b :: _ => ([], Some b)
      | [] => ([], None)
      end
  end.

Definition set_continue (dh : data_handler) (b : bool) : data_handler :=
  {| dh_markets := dh_markets dh;
     dh_market_data := dh_market_data dh;
     dh_market_snapshots := dh_market_snapshots dh;
     dh_latest_market_data := dh_latest_market_data dh;
     dh_continue_backtest := b |}.

(** One iteration of the [for] loop of [update_market_data]: [next] on the
    market's iterator ([_get_new_snapshot]); [StopIteration] clears
    [continue_backtest]; a row is appended to [latest_market_data[m]]. A
    snapshot is a row, never [None]. *)
Definition update_one_market (dh : data_handler) (m : string) : res data_handler :=
  match dh_market_snapshots dh !! m with
  | None => Err KeyError
  | Some [] => Ok (set_continue dh false)
  | Some (snapshot :: rest) =>
      match dh_latest_market_data dh !! m with
      | None => Err KeyError
      | Some l =>
          Ok {| dh_markets := dh_markets dh;
                dh_market_data := dh_market_data dh;
                dh_market_snapshots := <[m := rest]> (dh_market_snapshots dh);
                dh_latest_market_data := <[m := l ++ [snapshot]]> (dh_latest_market_data dh);
                dh_continue_backtest := dh_continue_backtest dh |}
      end
  end.

Fixpoint update_markets (ms : list string) (dh : data_handler) : res data_handler :=
  match ms with
  | [] => Ok dh
  | m :: ms' => let! dh' := update_one_market dh m in update_markets ms' dh'
  end.

(** [update_market_data]: every market, then [events.put(MarketEvent())]. *)
Definition update_market_data (dh : data_handler) (events : queue)
    : res (data_handler * queue) :=
  let! dh' := update_markets (dh_markets dh) dh in
  Ok (dh', events ++ [Some MarketEvent]).

(** [PoloniexDataHandler(markets, events, start, end)]: [__init__] with
    [get_all_market_data], which calls [poloniex.get_trades] per market
    ([feed m] is the upstream feed for market [m]); an exception raised there
    escapes the constructor. *)
Fixpoint get_all_market_data (std_dev : list Q -> Q) (feed : string -> Z -> Z -> list trade)
    (fuel : nat) (ms : list string) (start end_ : Z)
    : option (res (list (string * frame))) :=
  match ms with
  | [] => Some (Ok [])
  | m :: ms' =>
      match get_trades std_dev (feed m) fuel m start end_ with
      | None => None
      | Some (Err e) => Some (Err e)
      | Some (Ok (_, df)) =>
          match get_all_market_data std_dev feed fuel ms' start end_ with
          | None => None
          | Some (Err e) => Some (Err e)
          | Some (Ok l) => Some (Ok ((m, df) :: l))
          end
      end
  end.

Definition new_data_handler (std_dev : list Q -> Q) (feed : string -> Z -> Z -> list trade)
    (fuel : nat) (markets : list string) (start end_ : Z) : option (res data_handler) :=
  match get_all_market_data std_dev feed fuel markets start end_ with
  | None => None
  | Some (Err e) => Some (Err e)
  | Some (Ok l) =>
      let fetched := list_to_map l : gmap string frame in
      Some (Ok (init_data_handler markets (fun m => default [] (fetched !! m))))
  end.

(** ** NaivePortfolio (portfolio.py) *)

(** [current_holdings]: a value per market plus [cash], [commission] and
    [total]. *)
Record holdings := mkHoldings {
  h_markets : gmap string Q;
  h_cash : Q;
  h_commission : Q;
  h_total : Q
}.

(** A row of [all_positions]; its [datetime] key may be absent. *)
Record positions_row := mkPositionsRow {
  pr_datetime : option Z;
  pr_positions : gmap string Z
}.

(** A row of [all_holdings]. *)
Record holdings_row := mkHoldingsRow {
  hr_datetime : option Z;
  hr_markets : gmap string Q;
  hr_cash : Q;
  hr_commission : Q;
  hr_total : Q
}.

Record portfolio := mkPortfolio {
  pf_markets : list string;
  pf_start_date : Z;
  pf_initial_capital : Q;
  pf_all_positions : list positions_row;
  pf_current_positions : gmap string Z;
  pf_all_holdings : list holdings_row;
  pf_current_holdings : holdings
}.

(** [{s: 0 for s in markets}] *)
Definition zeros {A} (z : A) (markets : list string) : gmap string A :=
  list_to_map (map (fun m => (m, z)) markets).

Definition construct_all_positions (markets : list string) (start_date : Z)
    : list positions_row :=
  [mkPositionsRow (Some start_date) (zeros 0 markets)].

Definition construct_all_holdings (markets : list string) (start_date : Z)
    (initial_capital : Q) : list holdings_row :=
  [mkHoldingsRow (Some start_date) (zeros 0%Q markets) initial_capital 0 initial_capital].

Definition construct_current_holdings (markets : list string) (initial_capital : Q)
    : holdings :=
  mkHoldings (zeros 0%Q markets) initial_capital 0 initial_capital.

(** [NaivePortfolio.__init__]: without a [start_date], the first index of the
    first market's frame. *)
Definition init_portfolio (dh : data_handler) (start_date : option Z)
    (initial_capital : Q) : res portfolio :=
  let markets := dh_markets dh in
  let! sd :=
    match start_date with
    | Some d => Ok d
    | None =>
        match markets with
        | [] => Err IndexError
        | first_market :: _ =>
            match dh_market_data dh !! first_market with
            | None => Err KeyError
            | Some [] => Err IndexError
            | Some ((k, _) :: _) => Ok k
            end
        end
    end in
  Ok {| pf_markets := markets;
        pf_start_date := sd;
        pf_initial_capital := initial_capital;
        pf_all_positions := construct_all_positions markets sd;
        pf_current_positions := zeros 0 markets;
        pf_all_holdings := construct_all_holdings markets sd initial_capital;
        pf_current_holdings := construct_current_holdings markets initial_capital |}.

(** The [for] loop of [update_timeindex]. *)
Fixpoint timeindex_loop (dh : data_handler) (cur : gmap string Z)
    (ms : list string) (positions : positions_row) (holdings : holdings_row)
    : res (positions_row * holdings_row) :=
  match ms with
  | [] => Ok (positions, holdings)
  | market :: ms' =>
      match snd (get_latest_market_data dh market 1) with
      | None => timeindex_loop dh cur ms' positions holdings
      | Some (name, r) =>
          match cur !! market with
          | None => Err KeyError
          | Some p =>
              let positions' :=
                mkPositionsRow (Some name) (<[market := p]> (pr_positions positions)) in
              let market_value := (inject_Z p * s_mean (r FRate))%Q in
              let holdings' :=
                mkHoldingsRow (Some name) (hr_markets holdings) (hr_cash holdings)
                  (hr_commission holdings) (hr_total holdings + market_value)%Q in
              timeindex_loop dh cur ms' positions' holdings'
          end
      end
  end.

Definition with_histories (pf : portfolio) (ap : list positions_row)
    (ah : list holdings_row) : portfolio :=
  {| pf_markets := pf_markets pf;
     pf_start_date := pf_start_date pf;
     pf_initial_capital := pf_initial_capital pf;
     pf_all_positions := ap;
     pf_current_positions := pf_current_positions pf;
     pf_all_holdings := ah;
     pf_current_holdings := pf_current_holdings pf |}.

Definition with_current (pf : portfolio) (cp : gmap string Z) (ch : holdings)
    : portfolio :=
  {| pf_markets := pf_markets pf;
     pf_start_date := pf_start_date pf;
     pf_initial_capital := pf_initial_capital pf;
     pf_all_positions := pf_all_positions pf;
     pf_current_positions := cp;
     pf_all_holdings := pf_all_holdings pf;
     pf_current_holdings := ch |}.

(** [update_timeindex(event)] *)
Definition update_timeindex (dh : data_handler) (pf : portfolio) : res portfolio :=
  let ch := pf_current_holdings pf in
  let! rows :=
    timeindex_loop dh (pf_current_positions pf) (pf_markets pf)
      (mkPositionsRow None ∅)
      (mkHoldingsRow None ∅ (h_cash ch) (h_commission ch) (h_cash ch)) in
  Ok (with_histories pf (pf_all_positions pf ++ [fst rows])
                        (pf_all_holdings pf ++ [snd rows])).

(** [fill_dir] of [update_positions_from_fill] and [update_holdings_from_fill] *)
Definition fill_dir (direction : string) : Z :=
  let d := 0 in
  let d := if String.eqb direction "BUY" then 1 else d in
  let d := if String.eqb direction "SELL" then -1 else d in
  d.

Definition update_positions_from_fill (cur : gmap string Z) (f : fill)
    : res (gmap string Z) :=
  match cur !! fill_market f with
  | None => Err KeyError
  | Some p => Ok (<[fill_market f := p + fill_dir (fill_direction f) * fill_quantity f]> cur)
  end.

Definition update_holdings_from_fill (h : holdings) (f : fill) : res holdings :=
  let cost := (inject_Z (fill_dir (fill_direction f)) * fill_price f
               * inject_Z (fill_quantity f))%Q in
  match h_markets h !! fill_market f with
  | None => Err KeyError
  | Some v =>
      Ok (mkHoldings (<[fill_market f := (v + cost)%Q]> (h_markets h))
            (h_cash h - (cost + fill_commission f))%Q
            (h_commission h + fill_commission f)%Q
            (h_total h - (cost + fill_commission f))%Q)
  end.

(** [update_fill(event)] *)
Definition update_fill (pf : portfolio) (ev : event) : res portfolio :=
  match ev with
  | FillEvent f =>
      let! cp := update_positions_from_fill (pf_current_positions pf) f in
      let! ch := update_holdings_from_fill (pf_current_holdings pf) f in
      Ok (with_current pf cp ch)
  | _ => Ok pf
  end.

(** [generate_naive_order(signal)]; [Ok None] is the implicit [return None]
    at the end of the function. *)
Definition generate_naive_order (pf : portfolio) (sig : signal) : res (option order) :=
  let market := sig_market sig in
  let strength := sig_strength sig in
  let price := s_mean (snd (sig_market_snapshot sig) FRate) in
  let mkt_quantity := Qfloor (dbl_round (100 * strength)) in
  match pf_current_positions pf !! market with
  | None => Err KeyError
  | Some cur_quantity =>
      let st := sig_signal_type sig in
      if String.eqb st "LONG" && (cur_quantity =? 0)%Z then
        Ok (Some (mkOrder market "BUY" mkt_quantity price))
      else if String.eqb st "SHORT" && (cur_quantity =? 0)%Z then
        Ok (Some (mkOrder market "SELL" mkt_quantity price))
      else if String.eqb st "SHORT" && (0 <? cur_quantity)%Z then
        Ok (Some (mkOrder market "SELL" (2 * Z.abs cur_quantity) price))
      else if String.eqb st "LONG" && (cur_quantity <? 0)%Z then
        Ok (Some (mkOrder market "BUY" (2 * Z.abs cur_quantity) price))
      else Ok None
  end.

(** [update_signal(event)]: [self.events.put(order_event)]. *)
Definition update_signal (pf : portfolio) (events : queue) (ev : event) : res queue :=
  match ev with
  | SignalEvent s =>
      let! order_event := generate_naive_order pf s in
      Ok (events ++ [option_map OrderEvent order_event])
  | _ => Ok events
  end.

(** ** Drivers and the spec's order table *)

(** A sequence of fills applied with [update_fill]. *)
Fixpoint apply_fills (pf : portfolio) (fs : list fill) : res portfolio :=
  match fs with
  | [] => Ok pf
  | f :: fs' => let! pf' := update_fill pf (FillEvent f) in apply_fills pf' fs'
  end.

(** [sum(dir_i * price_i * quantity_i)] *)
Definition fills_cost (fs : list fill) : Q :=
  fold_right (fun f acc =>
    (inject_Z (fill_dir (fill_direction f)) * fill_price f * inject_Z (fill_quantity f) + acc)%Q)
    0%Q fs.

(** Every market of the handler has an iterator and a revealed list. *)
Definition dh_wf (dh : data_handler) : Prop :=
  forall m, In m (dh_markets dh) ->
    is_Some (dh_market_snapshots dh !! m) /\ is_Some (dh_latest_market_data dh !! m).

(** [update_timeindex] called once per data-handler state in [dhs]. *)
Fixpoint run_timeindex (dhs : list data_handler) (pf : portfolio) : res portfolio :=
  match dhs with
  | [] => Ok pf
  | dh :: dhs' => let! pf' := update_timeindex dh pf in run_timeindex dhs' pf'
  end.

(** [update_market_data] called [n] times. *)
Fixpoint advance_n (n : nat) (dh : data_handler) (events : queue)
    : res (data_handler * queue) :=
  match n with
  | O => Ok (dh, events)
  | S n' =>
      let! r := update_market_data dh events in advance_n n' (fst r) (snd r)
  end.

(** The order-sizing table of the spec (section 4.3): the state is the sign
    of the position, and every other combination gives no order. The base
    unit is a parameter: the spec writes [floor(100 * strength)]. *)
Definition order_table (unit : Z) (market : string) (price : Q) (pos : Z)
    (signal_type : string) : option order :=
  if (pos =? 0)%Z then
    if String.eqb signal_type "LONG" then Some (mkOrder market "BUY" unit price)
    else if String.eqb signal_type "SHORT" then Some (mkOrder market "SELL" unit price)
    else None
  else if (0 <? pos)%Z then
    if String.eqb signal_type "SHORT" then Some (mkOrder market "SELL" (2 * Z.abs pos) price)
    else None
  else
    if String.eqb signal_type "LONG" then Some (mkOrder market "BUY" (2 * Z.abs pos) price)
    else None.

(** The table as the spec writes it, with the unit [floor(100 * strength)]
    in exact arithmetic. *)
Definition spec_order_table (market : string) (price : Q) (pos : Z)
    (signal_type : string) (strength : Q) : option order :=
  order_table (Qfloor (100 * strength)) market price pos signal_type.

(** The table with the unit the code computes: the floor of the double
    product [100 * strength]. *)
Definition float_order_table (market : string) (price : Q) (pos : Z)
    (signal_type : string) (strength : Q) : option order :=
  order_table (Qfloor (dbl_round (100 * strength))) market price pos signal_type.

(** ** The equity curve ([create_equity_curve_dataframe] and the total
    return of [output_summary_stats]) *)

(** Floats with NaN: [None] is NaN. Pandas divides by a zero total to
    [inf] (or NaN for [0/0]); here such a ratio is NaN, and the properties
    below assume totals that are not zero. *)

(** [Series.pct_change()]: NaN first, then [x_i / x_(i-1) - 1] *)
Definition pct_change (xs : list Q) : list (option Q) :=
  match xs with
  | [] => []
  | x0 :: rest =>
      None :: map (fun '(prev, x) =>
                     if Qeq_bool prev 0 then None else Some (x / prev - 1)%Q)
                  (combine (x0 :: rest) rest)
  end.

(** [Series.cumprod()]: NaN entries stay NaN and are skipped by the
    running product *)
Fixpoint cumprod_from (acc : Q) (xs : list (option Q)) : list (option Q) :=
  match xs with
  | [] => []
  | None :: xs' => None :: cumprod_from acc xs'
  | Some x :: xs' => Some (acc * x)%Q :: cumprod_from (acc * x)%Q xs'
  end.

Definition cumprod (xs : list (option Q)) : list (option Q) := cumprod_from 1 xs.

(** [curve['returns']] and [curve['equity_curve'] = (1.0 + curve['returns']).cumprod()] *)
Definition curve_returns (pf : portfolio) : list (option Q) :=
  pct_change (map hr_total (pf_all_holdings pf)).

Definition equity_curve (pf : portfolio) : list (option Q) :=
  cumprod (map (option_map (Qplus 1)) (curve_returns pf)).

(** [total_return = self.equity_curve['equity_curve'][-1]] *)
Definition total_return (pf : portfolio) : res (option Q) :=
  match last (equity_curve pf) with
  | None => Err IndexError
  | Some e => Ok e
  end.

(** ** Concrete inputs used by the witnesses and counterexamples *)

Definition no_std (xs : list Q) : Q := 0.

(** Two pages whose trades share the hour [1] (seconds 3600-7199). *)
Definition ex_old_page : list trade :=
  [mkTrade 11 11 3700 "buy" 100 1 100; mkTrade 12 12 9000 "buy" 150 1 150].
Definition ex_new_page : list trade :=
  [mkTrade 5 5 3650 "sell" 200 1 200; mkTrade 4 4 100 "sell" 50 2 100].

Definition ex_trades_df : frame := hourly_stats_of no_std ex_old_page.
Definition ex_hourly : frame := hourly_stats_of no_std ex_new_page.

(** A feed that serves one trade for the window ending at 100 and another
    one for the window ending at 50. *)
Definition ex_feed (start end_ : Z) : list trade :=
  if (end_ =? 100)%Z then [mkTrade 2 2 50 "buy" 1 1 1]
  else if (end_ =? 50)%Z then [mkTrade 1 1 10 "sell" 1 1 1]
  else [].

Definition empty_feed (start end_ : Z) : list trade := [].

(** A one-market data handler (market [X]) and the portfolio built on it
    with [start_date = 0] and [initial_capital = 100000]. *)
Definition ex_dh : data_handler := init_data_handler ["X"] (fun _ => []).

Definition ex_pf : portfolio :=
  match init_portfolio ex_dh (Some 0) 100000 with
  | Ok pf => pf
  | Err _ => mkPortfolio [] 0 0 [] ∅ [] (mkHoldings ∅ 0 0 0)
  end.

Definition ex_bar : bar :=
  (1, fun _ => mkStat 1 10 0 10 10 10 10 10).

(** A replay of market [X] over three hourly bars, after two steps. *)
Definition ex_frame3 : frame := [(1, snd ex_bar); (2, snd ex_bar); (3, snd ex_bar)].

Definition ex_replay : data_handler := init_data_handler ["X"] (fun _ => ex_frame3).

Definition ex_replay2 : data_handler :=
  match advance_n 2 ex_replay [] with Ok (dh, _) => dh | Err _ => ex_replay end.

Definition ex_buy_fill : fill := mkFill "X" "BUY" 100 10 1.
Definition ex_hold_fill : fill := mkFill "X" "HOLD" 100 10 1.
Definition ex_free_fills : list fill := [mkFill "X" "BUY" 100 10 0; mkFill "X" "SELL" 40 12 0].

Definition ex_pf_after (f : fill) : portfolio :=
  match update_fill ex_pf (FillEvent f) with Ok pf => pf | Err _ => ex_pf end.


(** ** Helpers of the further properties *)

(** [sum(f(k) for k in ks)] over naturals *)
Definition sum_nat {A} (f : A -> nat) (ks : list A) : nat :=
  fold_right (fun k acc => (f k + acc)%nat) 0%nat ks.

(** the trades of [g] whose [type] contains [buy] *)
Definition count_buys (g : list trade) : nat :=
  length (filter (fun t => contains (type_ t) "buy") g).

(** [sum(fill_dir * quantity)] over the fills on market [m] *)
Definition position_change (m : string) (fs : list fill) : Z :=
  fold_right (fun f acc =>
    ((if String.eqb (fill_market f) m
      then fill_dir (fill_direction f) * fill_quantity f else 0) + acc)%Z) 0%Z fs.

(** [sum(cost)] over the fills on market [m] *)
Definition cost_on (m : string) (fs : list fill) : Q :=
  fold_right (fun f acc =>
    ((if String.eqb (fill_market f) m
      then inject_Z (fill_dir (fill_direction f)) * fill_price f * inject_Z (fill_quantity f)
      else 0) + acc)%Q) 0%Q fs.

(** [sum(commission)] *)
Definition fills_commission (fs : list fill) : Q :=
  fold_right (fun f acc => (fill_commission f + acc)%Q) 0%Q fs.

(** whether [get_latest_market_data(m, N=1)] finds a bar *)
Definition has_bar (dh : data_handler) (m : string) : bool :=
  match dh_latest_market_data dh !! m : option (list bar) with
  | Some l => match last l with Some _ => true | None => false end
  | None => false
  end.

(** [current_positions[m] * snapshot.rate['mean']] for the latest bar of
    [m], and [0] when [m] has none *)
Definition market_value (dh : data_handler) (cur : gmap string Z) (m : string) : Q :=
  match dh_latest_market_data dh !! m : option (list bar) with
  | Some l =>
      match last l with
      | Some (_, r) => (inject_Z (default 0%Z (cur !! m)) * s_mean (r FRate))%Q
      | None => 0%Q
      end
  | None => 0%Q
  end.

(** ** Frame lemmas *)

Lemma fold_left_select (g : Z -> Z -> Z) (Hg : forall a b, g a b = a \/ g a b = b)
    (rest : frame) (k0 : Z) :
  fold_left (fun m p => g m (fst p)) rest k0 = k0 \/
  In (fold_left (fun m p => g m (fst p)) rest k0) (map fst rest).
Proof.
  revert k0; induction rest as [|[k r] rest IH]; intros k0; simpl; [now left|].
  destruct (IH (g k0 k)) as [E|E].
  - rewrite E. destruct (Hg k0 k) as [E'|E']; rewrite E'; auto.
  - right; now right.
Qed.

Lemma frame_lookup_in (df : frame) (k : Z) :
  In k (map fst df) -> exists r, frame_lookup df k = Some r.
Proof.
  induction df as [|[k' r] df IH]; simpl; [tauto|].
  intros Hin. destruct (Z.eqb_spec k' k); [eauto|].
  apply IH; destruct Hin; [congruence|assumption].
Qed.

Lemma frame_min_key_lookup (df : frame) (k : Z) :
  frame_min_key df = Some k -> exists r, frame_lookup df k = Some r.
Proof.
  destruct df as [|[k0 r0] rest]; simpl; [discriminate|].
  intros E; injection E as <-.
  destruct (fold_left_select Z.min ltac:(intros a b; lia) rest k0) as [E|E].
  - rewrite E, Z.eqb_refl; eauto.
  - destruct (Z.eqb_spec k0 (fold_left (fun m p => Z.min m (fst p)) rest k0)); [eauto|].
    now apply frame_lookup_in.
Qed.

Lemma frame_max_key_lookup (df : frame) (k : Z) :
  frame_max_key df = Some k -> exists r, frame_lookup df k = Some r.
Proof.
  destruct df as [|[k0 r0] rest]; simpl; [discriminate|].
  intros E; injection E as <-.
  destruct (fold_left_select Z.max ltac:(intros a b; lia) rest k0) as [E|E].
  - rewrite E, Z.eqb_refl; eauto.
  - destruct (Z.eqb_spec k0 (fold_left (fun m p => Z.max m (fst p)) rest k0)); [eauto|].
    now apply frame_lookup_in.
Qed.

(** ** C1: the overlap merge of a bucket split across two pages *)

(** C1. When the oldest bucket already accumulated and the newest bucket of
    the new page have the same hour key, [get_trades] replaces the
    accumulated bucket by the count-weighted combination of the two and
    drops the page's copy. Every statistic except [count] becomes
    [(stat_a * count_a + stat_b * count_b) / (count_a + count_b)], for every
    column, min, max and quartiles included, where [count_x] is the bucket's
    trade count; every column's [count] becomes [count_a + count_b]. Two
    buckets of 60 and 40 trades with mean rates 100 and 200 merge to mean
    140 and count 100. *)
Theorem page_step_merges_split_bucket (trades_df hourly_stats : frame) (k : Z) :
  frame_min_key trades_df = Some k ->
  frame_max_key hourly_stats = Some k ->
  (exists row1 row2,
     frame_lookup trades_df k = Some row1 /\
     frame_lookup hourly_stats k = Some row2 /\
     page_step trades_df hourly_stats =
       Ok (frame_set trades_df k (merge_rows row1 row2) ++ frame_drop hourly_stats k) /\
     forall f,
       let ca := s_count (row1 FTradeID) in
       let cb := s_count (row2 FTradeID) in
       s_count (merge_rows row1 row2 f) = (ca + cb)%Q /\
       forall proj, In proj [s_mean; s_std; s_min; s_p25; s_p50; s_p75; s_max] ->
         proj (merge_rows row1 row2 f) = ((proj (row1 f) * ca + proj (row2 f) * cb) / (ca + cb))%Q) /\
  (forall row1 row2 : row,
     s_count (row1 FTradeID) = 60%Q -> s_count (row2 FTradeID) = 40%Q ->
     s_mean (row1 FRate) = 100%Q -> s_mean (row2 FRate) = 200%Q ->
     (s_mean (merge_rows row1 row2 FRate) == 140)%Q /\
     (s_count (merge_rows row1 row2 FRate) == 100)%Q).
Proof.
  intros Hmin Hmax. split.
  - destruct (frame_min_key_lookup _ _ Hmin) as [row1 H1].
    destruct (frame_max_key_lookup _ _ Hmax) as [row2 H2].
    exists row1, row2. split; [exact H1|]. split; [exact H2|]. split.
    + unfold page_step. rewrite Hmin, Hmax, Z.eqb_refl, H1, H2. reflexivity.
    + intros f ca cb. split; [reflexivity|].
      intros proj Hin. simpl in Hin.
      repeat (destruct Hin as [<-|Hin]; [reflexivity|]). contradiction.
  - intros row1 row2 Ha Hb Hma Hmb. unfold merge_rows; simpl.
    rewrite Ha, Hb, Hma, Hmb. split; vm_compute; reflexivity.
Qed.

Lemma page_step_merges_split_bucket_witness :
  frame_min_key ex_trades_df = Some 1 /\ frame_max_key ex_hourly = Some 1 /\
  exists row1 row2,
    frame_lookup ex_trades_df 1 = Some row1 /\
    frame_lookup ex_hourly 1 = Some row2 /\
    page_step ex_trades_df ex_hourly =
      Ok (frame_set ex_trades_df 1 (merge_rows row1 row2) ++ frame_drop ex_hourly 1).
Proof.
  assert (H1 : frame_min_key ex_trades_df = Some 1) by (vm_compute; reflexivity).
  assert (H2 : frame_max_key ex_hourly = Some 1) by (vm_compute; reflexivity).
  split; [exact H1|]. split; [exact H2|].
  destruct (page_step_merges_split_bucket ex_trades_df ex_hourly 1 H1 H2)
    as [[row1 [row2 [L1 [L2 [P _]]]]] _].
  exists row1, row2. split; [exact L1|]. split; [exact L2|]. exact P.
Defined.

(** ** C8: the paging loop of [get_trades] *)

(** The requested windows: each is [(start, page_end)], [page_end] is [end]
    for the first request and the minimum date of the previous page after
    it; nothing is requested after an empty page. *)
Fixpoint page_chain (feed : Z -> Z -> list trade) (start page_end : Z)
    (reqs : list (Z * Z)) : Prop :=
  match reqs with
  | [] => True
  | (s, pe) :: rest =>
      s = start /\ pe = page_end /\
      match feed s pe with
      | [] => rest = []
      | t0 :: ts => page_chain feed start (min_date t0 ts) rest
      end
  end.

(** The frame accumulated from the pages served for the requests [reqs], in
    order, from the frame [df] (lines 31-54 of the loop body); an empty page
    adds nothing. *)
Fixpoint accumulate (std_dev : list Q -> Q) (feed : Z -> Z -> list trade)
    (df : frame) (reqs : list (Z * Z)) : res frame :=
  match reqs with
  | [] => Ok df
  | (s, pe) :: rest =>
      match feed s pe with
      | [] => Ok df
      | t0 :: ts =>
          let! df' := page_step df (hourly_stats_of std_dev (t0 :: ts)) in
          accumulate std_dev feed df' rest
      end
  end.

Lemma last_cons_ne {A} (x : A) (l : list A) (r : A) :
  last l = Some r -> last (x :: l) = Some r.
Proof. destruct l; simpl; [discriminate|auto]. Qed.

Lemma fetch_loop_requests (std_dev : list Q -> Q) (feed : Z -> Z -> list trade) :
  forall fuel start e df0 acc df reqs,
    fetch_loop std_dev feed fuel start e df0 acc = Some (Ok (df, reqs)) ->
    exists rest, reqs = acc ++ rest /\ page_chain feed start e rest /\
      (need_to_fetch df = false \/
       exists r, last rest = Some r /\ feed (fst r) (snd r) = []).
Proof.
  induction fuel as [|fuel IH]; intros start e df0 acc df reqs H; simpl in H;
    [discriminate|].
  destruct (need_to_fetch df0) eqn:Hn.
  - destruct (feed start e) as [|t0 ts] eqn:Hf.
    + injection H as <- <-. exists [(start, e)].
      split; [reflexivity|]. split; [simpl; rewrite Hf; auto|].
      right. exists (start, e). split; [reflexivity|exact Hf].
    + destruct (page_step df0 (hourly_stats_of std_dev (t0 :: ts))) as [df'|err];
        [|discriminate].
      destruct (IH _ _ _ _ _ _ H) as [rest [E [C T]]].
      exists ((start, e) :: rest). rewrite <- app_assoc in E.
      split; [exact E|]. split; [simpl; rewrite Hf; auto|].
      destruct T as [T|[r [L F]]]; [now left|].
      right. exists r. split; [now apply last_cons_ne|exact F].
  - injection H as <- <-. exists []. rewrite app_nil_r.
    split; [reflexivity|]. split; [exact I|]. now left.
Qed.

(** C8 as stated: the loop stops only once the last page fetched is empty. *)
Definition stops_only_on_empty_page : Prop :=
  forall std_dev feed fuel start e df reqs,
    fetch_loop std_dev feed fuel start e [] [] = Some (Ok (df, reqs)) ->
    exists r, last reqs = Some r /\ feed (fst r) (snd r) = [].

(** C8 counterexample: with a feed that has one trade in [[0, 100]] and one
    more before it, the loop requests [[0, 100]] only: its page holds one
    trade, one is not a multiple of 50000, and the loop ends although that
    page was not empty. *)
Lemma fetch_loop_stops_after_short_page :
  (exists df, fetch_loop no_std ex_feed 10 0 100 [] [] = Some (Ok (df, [(0, 100)]))) /\
  ex_feed 0 100 <> [] /\ ex_feed 0 50 <> [] /\
  ~ stops_only_on_empty_page.
Proof.
  split; [eexists; vm_compute; reflexivity|].
  split; [vm_compute; discriminate|]. split; [vm_compute; discriminate|].
  intros H.
  destruct (H no_std ex_feed 10%nat 0 100 _ _ eq_refl) as [r [L F]].
  vm_compute in L. injection L as <-. vm_compute in F. discriminate.
Qed.

Lemma singleton_not_split {A} (x r : A) (pre post : list A) :
  [x] = pre ++ r :: post -> post <> [] -> False.
Proof.
  intros E N. apply (f_equal (@length A)) in E. rewrite length_app in E.
  simpl in E. destruct post; [congruence|simpl in E; lia].
Qed.

Lemma fetch_loop_trace (std_dev : list Q -> Q) (feed : Z -> Z -> list trade) :
  forall fuel start e df0 acc df reqs,
    need_to_fetch df0 = true ->
    fetch_loop std_dev feed fuel start e df0 acc = Some (Ok (df, reqs)) ->
    exists rest, reqs = acc ++ rest /\ rest <> [] /\ page_chain feed start e rest /\
      accumulate std_dev feed df0 rest = Ok df /\
      (forall pre r post, rest = pre ++ r :: post -> post <> [] ->
         feed (fst r) (snd r) <> [] /\
         exists d, accumulate std_dev feed df0 (pre ++ [r]) = Ok d /\ need_to_fetch d = true) /\
      (forall r, last rest = Some r -> feed (fst r) (snd r) <> [] -> need_to_fetch df = false).
Proof.
  induction fuel as [|fuel IH]; intros start e df0 acc df reqs Hn H; simpl in H;
    [discriminate|].
  rewrite Hn in H. destruct (feed start e) as [|t0 ts] eqn:Hf.
  - injection H as <- <-. exists [(start, e)].
    split; [reflexivity|]. split; [discriminate|].
    split; [simpl; rewrite Hf; auto|].
    split; [simpl; rewrite Hf; reflexivity|].
    split; [intros pre r post E N; exfalso; exact (singleton_not_split _ _ _ _ E N)|].
    intros r L F. simpl in L. injection L as <-. simpl in F. congruence.
  - destruct (page_step df0 (hourly_stats_of std_dev (t0 :: ts))) as [df'|err] eqn:Hp;
      [|discriminate].
    assert (A1 : accumulate std_dev feed df0 [(start, e)] = Ok df').
    { simpl. rewrite Hf, Hp. reflexivity. }
    destruct (need_to_fetch df') eqn:Hn'.
    + destruct (IH _ _ _ _ _ _ Hn' H) as [rest [E [Ne [C [Ac [P L]]]]]].
      exists ((start, e) :: rest). rewrite <- app_assoc in E.
      split; [exact E|]. split; [discriminate|].
      split; [simpl; rewrite Hf; auto|].
      split; [simpl; rewrite Hf, Hp; exact Ac|].
      split.
      * intros [|x pre] r post Eq N; simpl in Eq; injection Eq as Ex Eq.
        -- subst r. split; [simpl; rewrite Hf; discriminate|].
           exists df'. split; [exact A1|exact Hn'].
        -- subst x. destruct (P pre r post Eq N) as [F [d [Ad Nd]]].
           split; [exact F|]. exists d. split; [|exact Nd].
           simpl. rewrite Hf, Hp. exact Ad.
      * intros r Lr F. apply (L r); [|exact F].
        destruct rest as [|y rest]; [congruence|exact Lr].
    + destruct fuel as [|fuel]; simpl in H; [discriminate|].
      rewrite Hn' in H. injection H as <- <-. exists [(start, e)].
      split; [reflexivity|]. split; [discriminate|].
      split; [simpl; rewrite Hf; auto|].
      split; [exact A1|].
      split; [intros pre r post E N; exfalso; exact (singleton_not_split _ _ _ _ E N)|].
      intros r _ _. exact Hn'.
Qed.

(** C8 (amended). The loop walks backward in time: every request is
    [(start, page_end)], with [page_end = end] first and then the minimum
    date of the previous page; the frame it returns is the one accumulated
    from the pages of its requests. It issues a further request only after
    a non-empty page that leaves the accumulated frame needing a fetch (a
    trade count that is a multiple of 50000), and a last request that got
    a non-empty page leaves a frame whose count is not a multiple of 50000:
    it stops on an empty page or as soon as the count is not a multiple of
    50000, without waiting for an empty page. *)
Theorem fetch_loop_pages_backward (std_dev : list Q -> Q) (feed : Z -> Z -> list trade)
    (fuel : nat) (start e : Z) (df : frame) (reqs : list (Z * Z)) :
  fetch_loop std_dev feed fuel start e [] [] = Some (Ok (df, reqs)) ->
  page_chain feed start e reqs /\ reqs <> [] /\
  accumulate std_dev feed [] reqs = Ok df /\
  (forall pre r post, reqs = pre ++ r :: post -> post <> [] ->
     feed (fst r) (snd r) <> [] /\
     exists d, accumulate std_dev feed [] (pre ++ [r]) = Ok d /\ need_to_fetch d = true) /\
  (forall r, last reqs = Some r -> feed (fst r) (snd r) <> [] -> need_to_fetch df = false).
Proof.
  intros H. destruct (fetch_loop_trace std_dev feed _ _ _ [] _ _ _ eq_refl H)
    as [rest [E R]].
  simpl in E. subst rest. destruct R as [Ne [C R]]. split; [exact C|split; [exact Ne|exact R]].
Qed.

Lemma fetch_loop_pages_backward_witness :
  exists df, fetch_loop no_std ex_feed 10 0 100 [] [] = Some (Ok (df, [(0, 100)])) /\
    ex_feed 0 100 <> [] /\ need_to_fetch df = false.
Proof.
  destruct (fetch_loop no_std ex_feed 10 0 100 [] []) as [[[df reqs]|err]|] eqn:E;
    try (vm_compute in E; discriminate).
  assert (R : reqs = [(0, 100)]) by (vm_compute in E; congruence). subst reqs.
  destruct (fetch_loop_pages_backward no_std ex_feed 10 0 100 df [(0, 100)] E)
    as [_ [_ [_ [_ L]]]].
  exists df. split; [reflexivity|]. split; [vm_compute; discriminate|].
  apply (L (0, 100)); [reflexivity|vm_compute; discriminate].
Defined.

(** ** C9: a window without trades *)

(** C9 counterexample: for a window the feed has no trade in, the paging
    loop raises nothing: it returns the empty frame after its one request,
    and no EmptyRangeError (an exception the code does not have) is raised
    for it; what [get_trades] raises afterwards is the [AttributeError] of
    its final report, which reads the [tradeID] column of that empty frame,
    and that exception escapes [PoloniexDataHandler]'s constructor. *)
Lemma get_trades_empty_window_attribute_error :
  fetch_loop no_std empty_feed 10 0 100 [] [] = Some (Ok ([], [(0, 100)])) /\
  get_trades no_std empty_feed 10 "X" 0 100 = Some (Err AttributeError) /\
  new_data_handler no_std (fun _ => empty_feed) 10 ["X"] 0 100 = Some (Err AttributeError).
Proof. split; [|split]; vm_compute; reflexivity. Qed.

(** C9 (amended). An empty page ends the paging loop of [get_trades]
    ([if new_trades.empty: break]) with no error: the loop returns the
    frame accumulated so far, after that request. So when the window
    [[start, end]] yields zero trades, the loop stops after its single
    request with no trade accumulated (the empty frame), not with an
    EmptyRangeError. *)
Theorem get_trades_empty_window (std_dev : list Q -> Q) (feed : Z -> Z -> list trade)
    (fuel : nat) (start e : Z) :
  feed start e = [] ->
  (forall (df : frame) (acc : list (Z * Z)), need_to_fetch df = true ->
     fetch_loop std_dev feed (S fuel) start e df acc = Some (Ok (df, acc ++ [(start, e)]))) /\
  fetch_loop std_dev feed (S fuel) start e [] [] = Some (Ok ([], [(start, e)])).
Proof.
  intros Hf.
  assert (G : forall (df : frame) (acc : list (Z * Z)), need_to_fetch df = true ->
            fetch_loop std_dev feed (S fuel) start e df acc =
              Some (Ok (df, acc ++ [(start, e)]))).
  { intros df acc Hn. simpl. rewrite Hn, Hf. reflexivity. }
  split; [exact G|]. exact (G [] [] eq_refl).
Qed.

Lemma get_trades_empty_window_witness :
  fetch_loop no_std empty_feed 1 0 100 [] [] = Some (Ok ([], [(0, 100)])).
Proof.
  destruct (get_trades_empty_window no_std empty_feed 0 0 100) as [_ L];
    [reflexivity|exact L].
Defined.

(** ** Map lemmas *)

Lemma list_to_map_graph_lookup {A} (g : string -> A) (ms : list string) (m : string) :
  In m ms -> (list_to_map (map (fun k => (k, g k)) ms) : gmap string A) !! m = Some (g m).
Proof.
  intros Hm. apply elem_of_list_to_map_1'.
  - intros y Hy. apply list_elem_of_In, in_map_iff in Hy.
    destruct Hy as [m' [E _]]. congruence.
  - apply list_elem_of_In, in_map_iff. eauto.
Qed.

Lemma zeros_lookup {A} (z : A) (ms : list string) (m : string) :
  In m ms -> zeros z ms !! m = Some z.
Proof. apply (list_to_map_graph_lookup (fun _ => z)). Qed.

Lemma init_portfolio_spec (dh : data_handler) (sd : option Z) (cap : Q) (pf : portfolio) :
  init_portfolio dh sd cap = Ok pf ->
  pf_markets pf = dh_markets dh /\
  pf_current_positions pf = zeros 0 (dh_markets dh) /\
  pf_current_holdings pf = construct_current_holdings (dh_markets dh) cap /\
  length (pf_all_positions pf) = 1%nat /\ length (pf_all_holdings pf) = 1%nat.
Proof.
  unfold init_portfolio. intros H.
  destruct sd as [d|];
    [|destruct (dh_markets dh) as [|m ms]; [discriminate|];
      destruct (dh_market_data dh !! m) as [[|[k r] l]|]; try discriminate];
    simpl in H; injection H as <-; repeat split.
Qed.

(** ** C2: the order-sizing table *)

Lemma generate_naive_order_table (pf : portfolio) (sig : signal) (p : Z) :
  pf_current_positions pf !! sig_market sig = Some p ->
  generate_naive_order pf sig =
    Ok (float_order_table (sig_market sig) (s_mean (snd (sig_market_snapshot sig) FRate))
          p (sig_signal_type sig) (sig_strength sig)).
Proof.
  intros H. unfold generate_naive_order, float_order_table, order_table. rewrite H.
  destruct (String.eqb_spec (sig_signal_type sig) "LONG") as [E1|N1];
  destruct (String.eqb_spec (sig_signal_type sig) "SHORT") as [E2|N2];
  try (rewrite E1 in E2; discriminate);
  destruct (Z.eqb_spec p 0); destruct (Z.ltb_spec 0 p); destruct (Z.ltb_spec p 0);
  simpl; try reflexivity; lia.
Qed.

(** C2 as stated: on every market of the portfolio, the order is the one of
    the table with the unit [floor(100 * strength)]. *)
Definition follows_spec_table : Prop :=
  forall (pf : portfolio) (sig : signal) (p : Z),
    pf_current_positions pf !! sig_market sig = Some p ->
    generate_naive_order pf sig =
      Ok (spec_order_table (sig_market sig) (s_mean (snd (sig_market_snapshot sig) FRate))
            p (sig_signal_type sig) (sig_strength sig)).

(** The doubles Python reads for the literals [0.29] and [0.3]. *)
Definition dbl_0_29 : Q := 5224175567749775 # 18014398509481984.
Definition dbl_0_3 : Q := 5404319552844595 # 18014398509481984.

(** C2 counterexample: from flat, a LONG signal of strength [0.29] gives a
    BUY of 28, as [100 * 0.29] is the double [28.999999999999996], while
    [floor(100 * 0.29) = 29]; and a LONG signal of strength [0.3] gives a
    BUY of 30 although the exact product of that double with 100 is below
    30 (its floor is 29), as the product rounds up to the double [30.0].
    Read on the decimal or on the double, [floor(100 * strength)] is not
    the order size. *)
Lemma generate_naive_order_float_unit :
  generate_naive_order ex_pf (mkSignal "X" "LONG" dbl_0_29 ex_bar) =
    Ok (Some (mkOrder "X" "BUY" 28 10)) /\
  Qfloor (100 * (29 # 100)) = 29 /\
  generate_naive_order ex_pf (mkSignal "X" "LONG" dbl_0_3 ex_bar) =
    Ok (Some (mkOrder "X" "BUY" 30 10)) /\
  Qfloor (100 * dbl_0_3) = 29 /\
  ~ follows_spec_table.
Proof.
  split; [vm_compute; reflexivity|]. split; [reflexivity|].
  split; [vm_compute; reflexivity|]. split; [vm_compute; reflexivity|].
  intros H. specialize (H ex_pf (mkSignal "X" "LONG" dbl_0_3 ex_bar) 0).
  assert (E : generate_naive_order ex_pf (mkSignal "X" "LONG" dbl_0_3 ex_bar) =
              Ok (spec_order_table "X" 10 0 "LONG" dbl_0_3)).
  { apply H. vm_compute. reflexivity. }
  vm_compute in E. discriminate.
Qed.

(** C2 (amended). For a signal on a market of the portfolio,
    [generate_naive_order] follows the table on the sign of the current
    position, with the unit [floor(fl(100 * strength))], the floor of the
    product rounded to a double as Python's float multiplication does:
    from flat, LONG gives BUY and SHORT gives SELL of that unit; from long,
    SHORT gives SELL of [2 * |position|]; from short, LONG gives BUY of
    [2 * |position|]; LONG while long, SHORT while short and EXIT give no
    order. With position 100, SHORT at strength 0.5 gives SELL 200. *)
Theorem generate_naive_order_follows_table (pf : portfolio) (sig : signal) (p : Z) :
  pf_current_positions pf !! sig_market sig = Some p ->
  generate_naive_order pf sig =
    Ok (float_order_table (sig_market sig) (s_mean (snd (sig_market_snapshot sig) FRate))
          p (sig_signal_type sig) (sig_strength sig)) /\
  (p = 100 -> sig_signal_type sig = "SHORT" -> sig_strength sig = (1#2)%Q ->
   generate_naive_order pf sig =
     Ok (Some (mkOrder (sig_market sig) "SELL" 200
                 (s_mean (snd (sig_market_snapshot sig) FRate))))).
Proof.
  intros H. pose proof (generate_naive_order_table pf sig p H) as T.
  split; [exact T|]. intros -> Ht Hs. rewrite T, Ht, Hs. reflexivity.
Qed.

Definition ex_short_signal : signal := mkSignal "X" "SHORT" (1#2) ex_bar.

Definition ex_long_pf : portfolio :=
  with_current ex_pf (<["X" := 100]> (pf_current_positions ex_pf)) (pf_current_holdings ex_pf).

Lemma generate_naive_order_follows_table_witness :
  generate_naive_order ex_long_pf ex_short_signal = Ok (Some (mkOrder "X" "SELL" 200 10)).
Proof.
  apply (generate_naive_order_follows_table ex_long_pf ex_short_signal 100);
    vm_compute; reflexivity.
Defined.

(** ** C10: [update_signal] puts one item per signal *)

(** C10. For a SIGNAL event on a market of the portfolio, [update_signal]
    appends exactly one item to the queue: the order, or [None] when the
    table gives no order, as for LONG while long, SHORT while short, and
    EXIT. *)
Theorem update_signal_puts_one_item (pf : portfolio) (q : queue) (s : signal) (p : Z) :
  pf_current_positions pf !! sig_market s = Some p ->
  exists item,
    update_signal pf q (SignalEvent s) = Ok (q ++ [item]) /\
    (item = None <-> generate_naive_order pf s = Ok None) /\
    ((sig_signal_type s = "LONG" /\ 0 < p) \/ (sig_signal_type s = "SHORT" /\ p < 0) \/
     sig_signal_type s = "EXIT" -> item = None).
Proof.
  intros H. pose proof (generate_naive_order_table pf s p H) as T.
  exists (option_map OrderEvent
            (float_order_table (sig_market s) (s_mean (snd (sig_market_snapshot s) FRate))
               p (sig_signal_type s) (sig_strength s))).
  split; [unfold update_signal; rewrite T; reflexivity|]. split.
  - rewrite T. destruct (float_order_table _ _ _ _ _); simpl; split; congruence.
  - intros Hc. unfold float_order_table, order_table.
    destruct Hc as [[-> Hp] | [[-> Hp] | ->]];
      destruct (Z.eqb_spec p 0); destruct (Z.ltb_spec 0 p); simpl;
      try reflexivity; lia.
Qed.

Lemma update_signal_puts_one_item_witness :
  update_signal ex_pf [] (SignalEvent (mkSignal "X" "EXIT" 1 ex_bar)) = Ok [None].
Proof.
  destruct (update_signal_puts_one_item ex_pf [] (mkSignal "X" "EXIT" 1 ex_bar) 0)
    as [item [E [_ N]]]; [vm_compute; reflexivity|].
  rewrite E, N; [reflexivity|]. right; right; reflexivity.
Defined.

(** ** C3: applying fills *)

Lemma update_fill_step (pf : portfolio) (f : fill) (p : Z) (v : Q) :
  pf_current_positions pf !! fill_market f = Some p ->
  h_markets (pf_current_holdings pf) !! fill_market f = Some v ->
  let cost := (inject_Z (fill_dir (fill_direction f)) * fill_price f
               * inject_Z (fill_quantity f))%Q in
  let h := pf_current_holdings pf in
  update_fill pf (FillEvent f) =
    Ok (with_current pf
          (<[fill_market f := p + fill_dir (fill_direction f) * fill_quantity f]>
             (pf_current_positions pf))
          (mkHoldings (<[fill_market f := (v + cost)%Q]> (h_markets h))
             (h_cash h - (cost + fill_commission f))%Q
             (h_commission h + fill_commission f)%Q
             (h_total h - (cost + fill_commission f))%Q)).
Proof.
  intros Hp Hv cost h. unfold update_fill, update_positions_from_fill,
    update_holdings_from_fill. rewrite Hp. simpl. rewrite Hv. reflexivity.
Qed.

Lemma apply_fills_cash (fs : list fill) : forall pf : portfolio,
  (forall f, In f fs ->
     is_Some (pf_current_positions pf !! fill_market f) /\
     is_Some (h_markets (pf_current_holdings pf) !! fill_market f) /\
     (fill_commission f == 0)%Q) ->
  exists pf', apply_fills pf fs = Ok pf' /\
    (h_cash (pf_current_holdings pf') ==
     h_cash (pf_current_holdings pf) - fills_cost fs)%Q.
Proof.
  induction fs as [|f fs IH]; intros pf H.
  - exists pf. split; [reflexivity|]. simpl. ring.
  - destruct (H f (or_introl eq_refl)) as [[p Hp] [[v Hv] Hc]].
    cbn [apply_fills]. rewrite (update_fill_step pf f p v Hp Hv). cbn [res_bind].
    edestruct IH as [pf' [E C]]; [|exists pf'; split; [exact E|]].
    + intros f' Hin. destruct (H f' (or_intror Hin)) as [P [V C]]. simpl.
      rewrite !lookup_insert_is_Some'. auto.
    + rewrite C. simpl. rewrite Hc. ring.
Qed.

(** C3. A BUY fill has direction +1 and a SELL fill -1; applying a fill on
    a market of the portfolio adds [dir * quantity] to its position and
    takes [dir * price * quantity + commission] from the cash. Hence, from
    a freshly built portfolio and for fills on its markets without
    commission, the final cash is the initial capital minus
    [sum(dir_i * price_i * quantity_i)]. From 100000 in cash, market [X]
    flat, the fill (BUY, 100, price 10, commission 1) leaves position 100
    and cash 98999. *)
Theorem update_fill_ledger :
  (fill_dir "BUY" = 1 /\ fill_dir "SELL" = -1) /\
  (forall (pf : portfolio) (f : fill) (p : Z) (v : Q),
     pf_current_positions pf !! fill_market f = Some p ->
     h_markets (pf_current_holdings pf) !! fill_market f = Some v ->
     exists pf', update_fill pf (FillEvent f) = Ok pf' /\
       pf_current_positions pf' !! fill_market f =
         Some (p + fill_dir (fill_direction f) * fill_quantity f) /\
       h_cash (pf_current_holdings pf') =
         (h_cash (pf_current_holdings pf)
          - (inject_Z (fill_dir (fill_direction f)) * fill_price f
             * inject_Z (fill_quantity f) + fill_commission f))%Q) /\
  (forall (dh : data_handler) (sd : option Z) (cap : Q) (pf : portfolio) (fs : list fill),
     init_portfolio dh sd cap = Ok pf ->
     (forall f, In f fs -> In (fill_market f) (dh_markets dh) /\ (fill_commission f == 0)%Q) ->
     exists pf', apply_fills pf fs = Ok pf' /\
       (h_cash (pf_current_holdings pf') == cap - fills_cost fs)%Q) /\
  (init_portfolio ex_dh (Some 0) 100000 = Ok ex_pf /\
   exists pf', update_fill ex_pf (FillEvent ex_buy_fill) = Ok pf' /\
     pf_current_positions pf' !! "X" = Some 100 /\
     (h_cash (pf_current_holdings pf') == 98999)%Q).
Proof.
  split; [split; reflexivity|]. split; [|split].
  - intros pf f p v Hp Hv. rewrite (update_fill_step pf f p v Hp Hv).
    eexists. split; [reflexivity|]. simpl. split; [|reflexivity].
    apply lookup_insert_eq.
  - intros dh sd cap pf fs Hi Hf.
    destruct (init_portfolio_spec dh sd cap pf Hi) as [_ [Ep [Eh _]]].
    destruct (apply_fills_cash fs pf) as [pf' [E C]].
    + intros f Hin. destruct (Hf f Hin) as [M Z0].
      rewrite Ep, Eh. simpl. rewrite !zeros_lookup by exact M. auto.
    + exists pf'. split; [exact E|]. rewrite C, Eh. reflexivity.
  - split; [vm_compute; reflexivity|].
    exists (ex_pf_after ex_buy_fill). split; [vm_compute; reflexivity|].
    split; vm_compute; reflexivity.
Qed.

Lemma update_fill_ledger_witness :
  (exists pf', apply_fills ex_pf ex_free_fills = Ok pf' /\
     (h_cash (pf_current_holdings pf') == 100000 - fills_cost ex_free_fills)%Q) /\
  (exists pf', update_fill ex_pf (FillEvent ex_buy_fill) = Ok pf' /\
     pf_current_positions pf' !! "X" = Some (0 + fill_dir "BUY" * 100)).
Proof.
  destruct update_fill_ledger as [_ [Step [Cons _]]]. split.
  - apply (Cons ex_dh (Some 0) 100000%Q ex_pf ex_free_fills); [vm_compute; reflexivity|].
    intros f Hin. simpl in Hin.
    destruct Hin as [<-|[<-|[]]]; split; (left; reflexivity) || reflexivity.
  - destruct (Step ex_pf ex_buy_fill 0 0%Q) as [pf' [E [P _]]];
      [vm_compute; reflexivity|vm_compute; reflexivity|].
    exists pf'. split; [exact E|exact P].
Defined.

(** ** C5: fills with an unrecognised direction *)

Lemma fill_dir_other (d : string) : d <> "BUY" -> d <> "SELL" -> fill_dir d = 0.
Proof.
  intros NB NS. unfold fill_dir.
  destruct (String.eqb_spec d "BUY"); [contradiction|].
  destruct (String.eqb_spec d "SELL"); [contradiction|reflexivity].
Qed.

(** C5 as stated: a fill whose direction is neither BUY nor SELL leaves the
    positions, cash, commission and total unchanged. *)
Definition unknown_direction_fill_is_noop : Prop :=
  forall (pf pf' : portfolio) (f : fill),
    fill_direction f <> "BUY" -> fill_direction f <> "SELL" ->
    update_fill pf (FillEvent f) = Ok pf' ->
    pf_current_positions pf' = pf_current_positions pf /\
    (h_cash (pf_current_holdings pf') == h_cash (pf_current_holdings pf))%Q /\
    (h_commission (pf_current_holdings pf') == h_commission (pf_current_holdings pf))%Q /\
    (h_total (pf_current_holdings pf') == h_total (pf_current_holdings pf))%Q.

(** C5 counterexample: a HOLD fill with commission 1 on market [X] of the
    100000 portfolio takes the commission from the cash: 99999. *)
Lemma unknown_direction_fill_charges_commission :
  update_fill ex_pf (FillEvent ex_hold_fill) = Ok (ex_pf_after ex_hold_fill) /\
  (h_cash (pf_current_holdings (ex_pf_after ex_hold_fill)) == 99999)%Q /\
  ~ unknown_direction_fill_is_noop.
Proof.
  split; [vm_compute; reflexivity|]. split; [vm_compute; reflexivity|].
  intros H.
  destruct (H ex_pf (ex_pf_after ex_hold_fill) ex_hold_fill) as [_ [C _]];
    [vm_compute; discriminate|vm_compute; discriminate|vm_compute; reflexivity|].
  vm_compute in C. discriminate.
Qed.

(** C5 (amended). A fill on a market of the portfolio whose direction is
    neither BUY nor SELL has direction 0: the positions and the market's
    holding keep their values, but the commission is still charged: it is
    added to [commission] and taken from [cash] and [total]. The fill is a
    no-op exactly when its commission is 0. *)
Theorem update_fill_unknown_direction (pf : portfolio) (f : fill) (p : Z) (v : Q) :
  fill_direction f <> "BUY" -> fill_direction f <> "SELL" ->
  pf_current_positions pf !! fill_market f = Some p ->
  h_markets (pf_current_holdings pf) !! fill_market f = Some v ->
  exists pf', update_fill pf (FillEvent f) = Ok pf' /\
    pf_current_positions pf' = pf_current_positions pf /\
    (exists v', h_markets (pf_current_holdings pf') !! fill_market f = Some v' /\ (v' == v)%Q) /\
    (forall m, m <> fill_market f ->
       h_markets (pf_current_holdings pf') !! m = h_markets (pf_current_holdings pf) !! m) /\
    (h_cash (pf_current_holdings pf') == h_cash (pf_current_holdings pf) - fill_commission f)%Q /\
    (h_commission (pf_current_holdings pf') ==
       h_commission (pf_current_holdings pf) + fill_commission f)%Q /\
    (h_total (pf_current_holdings pf') == h_total (pf_current_holdings pf) - fill_commission f)%Q.
Proof.
  intros NB NS Hp Hv. rewrite (update_fill_step pf f p v Hp Hv).
  rewrite (fill_dir_other _ NB NS). eexists. split; [reflexivity|]. simpl.
  split; [apply insert_id; rewrite Hp; f_equal; lia|].
  split; [eexists; split; [apply lookup_insert_eq|ring]|].
  split; [intros m Hm; apply lookup_insert_ne; congruence|].
  split; [ring|]. split; ring.
Qed.

Lemma update_fill_unknown_direction_witness :
  exists pf', update_fill ex_pf (FillEvent ex_hold_fill) = Ok pf' /\
    pf_current_positions pf' = pf_current_positions ex_pf /\
    (h_cash (pf_current_holdings pf') == h_cash (pf_current_holdings ex_pf) - 1)%Q.
Proof.
  destruct (update_fill_unknown_direction ex_pf ex_hold_fill 0 0%Q)
    as [pf' [E [P [_ [_ [C _]]]]]];
    [vm_compute; discriminate|vm_compute; discriminate
    |vm_compute; reflexivity|vm_compute; reflexivity|].
  exists pf'. split; [exact E|]. split; [exact P|exact C].
Defined.

(** ** C4: the positions and holdings histories *)

Lemma timeindex_loop_ok (dh : data_handler) (cur : gmap string Z) (ms : list string) :
  forall pos hold,
  (forall m, In m ms -> is_Some (cur !! m)) ->
  exists r, timeindex_loop dh cur ms pos hold = Ok r.
Proof.
  induction ms as [|m ms IH]; intros pos hold H; simpl; [eauto|].
  destruct (snd (get_latest_market_data dh m 1)) as [[name r]|].
  - destruct (H m (or_introl eq_refl)) as [p Hp]. rewrite Hp.
    apply IH. intros m' Hm'. apply H. now right.
  - apply IH. intros m' Hm'. apply H. now right.
Qed.

Lemma update_timeindex_grows (dh : data_handler) (pf : portfolio) :
  (forall m, In m (pf_markets pf) -> is_Some (pf_current_positions pf !! m)) ->
  exists pf', update_timeindex dh pf = Ok pf' /\
    length (pf_all_positions pf') = S (length (pf_all_positions pf)) /\
    length (pf_all_holdings pf') = S (length (pf_all_holdings pf)) /\
    pf_markets pf' = pf_markets pf /\
    pf_current_positions pf' = pf_current_positions pf.
Proof.
  intros H. unfold update_timeindex.
  match goal with
  | |- context [timeindex_loop ?d ?c ?ms ?p ?h] =>
      destruct (timeindex_loop_ok d c ms p h H) as [r E]; rewrite E
  end.
  eexists. split; [reflexivity|]. simpl. rewrite !length_app. simpl.
  repeat split; lia.
Qed.

Lemma run_timeindex_grows (dhs : list data_handler) : forall pf : portfolio,
  (forall m, In m (pf_markets pf) -> is_Some (pf_current_positions pf !! m)) ->
  exists pf', run_timeindex dhs pf = Ok pf' /\
    length (pf_all_positions pf') = (length (pf_all_positions pf) + length dhs)%nat /\
    length (pf_all_holdings pf') = (length (pf_all_holdings pf) + length dhs)%nat.
Proof.
  induction dhs as [|dh dhs IH]; intros pf H; simpl.
  - exists pf. repeat split; lia.
  - destruct (update_timeindex_grows dh pf H) as [pf1 [E [L1 [L2 [M P]]]]].
    rewrite E. simpl. destruct (IH pf1) as [pf' [E' [L1' L2']]].
    + rewrite M, P. exact H.
    + exists pf'. split; [exact E'|]. lia.
Qed.

(** C4. The portfolio starts with exactly one row in [all_positions] and
    one in [all_holdings]; every call of [update_timeindex] appends exactly
    one row to each, whichever markets ticked; so after [N] calls both have
    [N + 1] rows. *)
Theorem ledger_history_lengths :
  (forall (dh : data_handler) (pf : portfolio),
     (forall m, In m (pf_markets pf) -> is_Some (pf_current_positions pf !! m)) ->
     exists pf', update_timeindex dh pf = Ok pf' /\
       length (pf_all_positions pf') = S (length (pf_all_positions pf)) /\
       length (pf_all_holdings pf') = S (length (pf_all_holdings pf))) /\
  (forall (dh0 : data_handler) (sd : option Z) (cap : Q) (pf : portfolio)
          (dhs : list data_handler),
     init_portfolio dh0 sd cap = Ok pf ->
     length (pf_all_positions pf) = 1%nat /\ length (pf_all_holdings pf) = 1%nat /\
     exists pf', run_timeindex dhs pf = Ok pf' /\
       length (pf_all_positions pf') = S (length dhs) /\
       length (pf_all_holdings pf') = S (length dhs)).
Proof.
  split.
  - intros dh pf H. destruct (update_timeindex_grows dh pf H) as [pf' [E [L1 [L2 _]]]].
    eauto.
  - intros dh0 sd cap pf dhs Hi.
    destruct (init_portfolio_spec dh0 sd cap pf Hi) as [M [P [_ [L1 L2]]]].
    split; [exact L1|]. split; [exact L2|].
    destruct (run_timeindex_grows dhs pf) as [pf' [E [L1' L2']]].
    + intros m Hm. rewrite P. rewrite M in Hm. rewrite zeros_lookup by exact Hm. eauto.
    + exists pf'. split; [exact E|]. lia.
Qed.

Lemma ledger_history_lengths_witness :
  exists pf', run_timeindex [ex_replay2; ex_dh; ex_replay2] ex_pf = Ok pf' /\
    length (pf_all_positions pf') = 4%nat /\ length (pf_all_holdings pf') = 4%nat.
Proof.
  destruct ledger_history_lengths as [_ Run].
  destruct (Run ex_dh (Some 0) 100000%Q ex_pf [ex_replay2; ex_dh; ex_replay2])
    as [_ [_ [pf' [E [L1 L2]]]]]; [vm_compute; reflexivity|].
  exists pf'. split; [exact E|]. split; assumption.
Defined.

(** ** C6: the latest-bar query *)

Lemma head_drop_nth_error {A} (l : list A) (k : nat) :
  match drop k l with b :: _ => Some b | [] => None end = nth_error l k.
Proof.
  revert k; induction l as [|x l IH]; intros [|k]; simpl; auto.
Qed.

Lemma nth_error_pred_length_last {A} (l : list A) :
  nth_error l (pred (length l)) = last l.
Proof.
  induction l as [|x [|y l] IH]; simpl; auto.
Qed.

(** C6 as stated: for every [N >= 1] the query returns the most recent
    revealed bar. *)
Definition latest_query_returns_most_recent : Prop :=
  forall (dh : data_handler) (m : string) (N : Z) (l : list bar),
    dh_latest_market_data dh !! m = Some l -> l <> [] -> 1 <= N ->
    snd (get_latest_market_data dh m N) = last l.

(** C6 (code bug): after two steps of the replay of [X], the revealed bars
    are those of hours 1 and 2; [get_latest_market_data('X', N=2)] returns
    [snapshot_list[-2:][0]], the bar of hour 1, the first of the last two,
    where the claim (and the docstring's "the last N bars") has the latest
    bar, of hour 2. *)
Lemma latest_query_with_N_2_returns_older_bar :
  dh_latest_market_data ex_replay2 !! "X" = Some [(1, snd ex_bar); (2, snd ex_bar)] /\
  get_latest_market_data ex_replay2 "X" 2 = ([], Some (1, snd ex_bar)) /\
  ~ latest_query_returns_most_recent.
Proof.
  split; [vm_compute; reflexivity|]. split; [vm_compute; reflexivity|].
  intros H.
  specialize (H ex_replay2 "X" 2 [(1, snd ex_bar); (2, snd ex_bar)]).
  assert (E : snd (get_latest_market_data ex_replay2 "X" 2) =
              last [(1, snd ex_bar); (2, snd ex_bar)]).
  { apply H; [vm_compute; reflexivity|discriminate|lia]. }
  vm_compute in E. injection E as E. discriminate.
Qed.

(** ** C7: one replay step *)

Lemma update_markets_continue_false (ms : list string) : forall dh dh',
  update_markets ms dh = Ok dh' ->
  dh_continue_backtest dh = false -> dh_continue_backtest dh' = false.
Proof.
  induction ms as [|m ms IH]; intros dh dh' H C; simpl in H.
  - injection H as <-. exact C.
  - unfold update_one_market in H.
    destruct (dh_market_snapshots dh !! m) as [[|b rest]|]; simpl in H;
      [eapply IH; [exact H|reflexivity]| |discriminate].
    destruct (dh_latest_market_data dh !! m); simpl in H; [|discriminate].
    eapply IH; [exact H|exact C].
Qed.

Lemma advance_n_continue_false (n : nat) : forall dh q dh' q',
  advance_n n dh q = Ok (dh', q') ->
  dh_continue_backtest dh = false -> dh_continue_backtest dh' = false.
Proof.
  induction n as [|n IH]; intros dh q dh' q' H C; simpl in H.
  - injection H as <- <-. exact C.
  - unfold update_market_data in H.
    destruct (update_markets (dh_markets dh) dh) as [dh1|] eqn:E; simpl in H;
      [|discriminate].
    eapply IH; [exact H|]. eapply update_markets_continue_false; eassumption.
Qed.

(** The effect of the loop of [update_market_data] over distinct markets
    [ms]. *)
Lemma update_markets_spec (ms : list string) : forall dh,
  NoDup ms ->
  (forall m, In m ms -> is_Some (dh_market_snapshots dh !! m) /\
                        is_Some (dh_latest_market_data dh !! m)) ->
  exists dh', update_markets ms dh = Ok dh' /\
    dh_markets dh' = dh_markets dh /\
    (forall k, is_Some (dh_market_snapshots dh !! k) -> is_Some (dh_market_snapshots dh' !! k)) /\
    (forall k, is_Some (dh_latest_market_data dh !! k) -> is_Some (dh_latest_market_data dh' !! k)) /\
    (forall k, ~ In k ms -> dh_market_snapshots dh' !! k = dh_market_snapshots dh !! k /\
                           dh_latest_market_data dh' !! k = dh_latest_market_data dh !! k) /\
    (forall m b rest l, In m ms ->
       dh_market_snapshots dh !! m = Some (b :: rest) ->
       dh_latest_market_data dh !! m = Some l ->
       dh_market_snapshots dh' !! m = Some rest /\
       dh_latest_market_data dh' !! m = Some (l ++ [b])) /\
    ((exists m, In m ms /\ dh_market_snapshots dh !! m = Some []) ->
       dh_continue_backtest dh' = false) /\
    (dh_continue_backtest dh = false -> dh_continue_backtest dh' = false).
Proof.
  induction ms as [|m ms IH]; intros dh ND H.
  - exists dh. simpl. repeat split; auto; firstorder.
  - apply NoDup_cons in ND as [Nm ND].
    assert (Nm' : ~ In m ms) by (intros Hi; apply Nm, list_elem_of_In, Hi).
    clear Nm; rename Nm' into Nm.
    destruct (H m (or_introl eq_refl)) as [[sm Hs] [lm Hl]].
    simpl. unfold update_one_market at 1. rewrite Hs.
    destruct sm as [|b rest].
    + (* the iterator of [m] is exhausted *)
      simpl. destruct (IH (set_continue dh false) ND) as
        [dh' [E [Mk [Ks [Kl [Out [Adv [Ex Cf]]]]]]]].
      { intros k Hk. apply H. now right. }
      exists dh'. split; [exact E|]. simpl in *.
      split; [exact Mk|]. split; [exact Ks|]. split; [exact Kl|].
      split; [intros k Hk; apply Out; tauto|].
      split.
      { intros m' b' rest' l' [<-|Hin] Hs' Hl'; [congruence|].
        apply Adv; assumption. }
      split; intros; apply Cf; reflexivity.
    + rewrite Hl. simpl.
      set (dh1 := {| dh_markets := dh_markets dh;
                     dh_market_data := dh_market_data dh;
                     dh_market_snapshots := <[m := rest]> (dh_market_snapshots dh);
                     dh_latest_market_data := <[m := lm ++ [b]]> (dh_latest_market_data dh);
                     dh_continue_backtest := dh_continue_backtest dh |}).
      destruct (IH dh1 ND) as [dh' [E [Mk [Ks [Kl [Out [Adv [Ex Cf]]]]]]]].
      { intros k Hk. subst dh1; simpl.
        rewrite !lookup_insert_is_Some'. destruct (H k (or_intror Hk)); auto. }
      exists dh'. split; [exact E|]. subst dh1; simpl in *.
      split; [exact Mk|].
      split; [intros k Hk; apply Ks; rewrite lookup_insert_is_Some'; auto|].
      split; [intros k Hk; apply Kl; rewrite lookup_insert_is_Some'; auto|].
      split.
      { intros k Hk. destruct (Out k ltac:(tauto)) as [O1 O2].
        rewrite O1, O2, !lookup_insert_ne by (intros ->; tauto). auto. }
      split.
      { intros m' b' rest' l' [<-|Hin] Hs' Hl'.
        - destruct (Out m Nm) as [O1 O2]. rewrite O1, O2, !lookup_insert_eq.
          rewrite Hs in Hs'; rewrite Hl in Hl'. injection Hs' as <- <-.
          injection Hl' as <-. auto.
        - apply Adv; [exact Hin| |];
            rewrite lookup_insert_ne by (intros ->; tauto); assumption. }
      split.
      { intros [m' [[<-|Hin] Hs']]; [congruence|].
        apply Ex. exists m'. split; [exact Hin|].
        rewrite lookup_insert_ne by (intros ->; tauto). exact Hs'. }
      exact Cf.
Qed.

(** C7. For a handler whose distinct markets all have an iterator and a
    revealed list, [update_market_data] attempts every market and then puts
    exactly one [MarketEvent] on the queue, whether or not a bar was
    pulled; every market whose iterator still has a bar gets it appended to
    its revealed list, even when another market's iterator is exhausted;
    once a market's iterator has been found exhausted [continue_backtest]
    is false, and it stays false through every later step. *)
Theorem update_market_data_step (dh : data_handler) (q : queue) :
  dh_wf dh -> NoDup (dh_markets dh) ->
  exists dh', update_market_data dh q = Ok (dh', q ++ [Some MarketEvent]) /\
    dh_markets dh' = dh_markets dh /\ dh_wf dh' /\
    (forall m b rest l, In m (dh_markets dh) ->
       dh_market_snapshots dh !! m = Some (b :: rest) ->
       dh_latest_market_data dh !! m = Some l ->
       dh_latest_market_data dh' !! m = Some (l ++ [b]) /\
       dh_market_snapshots dh' !! m = Some rest) /\
    ((exists m, In m (dh_markets dh) /\ dh_market_snapshots dh !! m = Some []) ->
       dh_continue_backtest dh' = false) /\
    (dh_continue_backtest dh = false -> dh_continue_backtest dh' = false) /\
    (dh_continue_backtest dh' = false ->
       forall n q0 dh'' q'', advance_n n dh' q0 = Ok (dh'', q'') ->
       dh_continue_backtest dh'' = false).
Proof.
  intros WF ND.
  destruct (update_markets_spec (dh_markets dh) dh ND WF)
    as [dh' [E [Mk [Ks [Kl [_ [Adv [Ex Cf]]]]]]]].
  exists dh'. unfold update_market_data. rewrite E. split; [reflexivity|].
  split; [exact Mk|]. split.
  { intros m Hm. rewrite Mk in Hm. destruct (WF m Hm). auto. }
  split.
  { intros m b rest l Hm Hs Hl. destruct (Adv m b rest l Hm Hs Hl). auto. }
  split; [exact Ex|]. split; [exact Cf|].
  intros C n q0 dh'' q'' H. eapply advance_n_continue_false; eassumption.
Qed.

(** Two markets: [X] with three bars, [Y] with none. *)
Definition ex_replay_xy : data_handler :=
  init_data_handler ["X"; "Y"] (fun m => if String.eqb m "X" then ex_frame3 else []).

Lemma update_market_data_step_witness :
  exists dh', update_market_data ex_replay_xy [] = Ok (dh', [Some MarketEvent]) /\
    dh_latest_market_data dh' !! "X" = Some ([] ++ [(1, snd ex_bar)]) /\
    dh_continue_backtest dh' = false.
Proof.
  destruct (update_market_data_step ex_replay_xy [])
    as [dh' [E [_ [_ [Adv [Ex _]]]]]].
  - intros m Hm. simpl in Hm.
    destruct Hm as [<-|[<-|[]]]; split; vm_compute; eauto.
  - apply (bool_decide_unpack _). vm_compute. reflexivity.
  - exists dh'. split; [exact E|]. split.
    + apply (Adv "X" (1, snd ex_bar) [(2, snd ex_bar); (3, snd ex_bar)] []);
        [left; reflexivity|vm_compute; reflexivity|vm_compute; reflexivity].
    + apply Ex. exists "Y". split; [right; left; reflexivity|vm_compute; reflexivity].
Defined.

(** ** Further properties: hourly aggregation of one page *)

Lemma insert_Z_In (x y : Z) (l : list Z) : In y (insert_Z x l) <-> y = x \/ In y l.
Proof.
  induction l as [|z l IH]; simpl; [intuition congruence|].
  destruct (Z.ltb_spec x z); [simpl; intuition congruence|].
  destruct (Z.eqb_spec x z); [subst; simpl; intuition congruence|].
  simpl. rewrite IH. intuition congruence.
Qed.

Lemma insert_Z_sorted (x : Z) (l : list Z) :
  StronglySorted Z.lt l -> StronglySorted Z.lt (insert_Z x l).
Proof.
  induction l as [|z l IH]; intros H; simpl.
  - repeat constructor.
  - apply StronglySorted_inv in H as [Hl Hz].
    destruct (Z.ltb_spec x z).
    + constructor; [constructor; assumption|].
      constructor; [lia|]. rewrite List.Forall_forall in *. intros w Hw.
      specialize (Hz w Hw). lia.
    + destruct (Z.eqb_spec x z); [constructor; assumption|].
      constructor; [apply IH, Hl|]. rewrite List.Forall_forall in *.
      intros w Hw. apply insert_Z_In in Hw as [->|Hw]; [lia|auto].
Qed.

Lemma group_keys_sorted (ts : list trade) : StronglySorted Z.lt (group_keys ts).
Proof.
  induction ts as [|t ts IH]; simpl; [constructor|]. now apply insert_Z_sorted.
Qed.

Lemma group_keys_In (ts : list trade) (k : Z) :
  In k (group_keys ts) <-> exists t, In t ts /\ hour_of t = k.
Proof.
  induction ts as [|t ts IH]; simpl.
  - split; [tauto|]. intros [? [[] _]].
  - unfold group_keys in *; simpl. rewrite insert_Z_In, IH. split.
    + intros [->|[t' [H1 H2]]]; eauto.
    + intros [t' [[<-|H1] H2]]; eauto.
Qed.

Lemma strongly_sorted_NoDup (l : list Z) : StronglySorted Z.lt l -> NoDup l.
Proof.
  induction l as [|x l IH]; intros H; [constructor|].
  apply StronglySorted_inv in H as [Hl Hx]. apply NoDup_cons. split; [|auto].
  intros Hin. apply list_elem_of_In in Hin. rewrite List.Forall_forall in Hx.
  specialize (Hx x Hin). lia.
Qed.

Lemma sum_nat_indicator (x : Z) (ks : list Z) :
  NoDup ks -> In x ks -> sum_nat (fun k => if (x =? k)%Z then 1%nat else 0%nat) ks = 1%nat.
Proof.
  induction ks as [|k ks IH]; intros ND Hin; [destruct Hin|].
  apply NoDup_cons in ND as [Nk ND]. simpl.
  destruct (Z.eqb_spec x k) as [->|Ne].
  - assert (Z0 : forall l, ~ In k l ->
              sum_nat (fun k' => if (k =? k')%Z then 1%nat else 0%nat) l = 0%nat).
    { induction l as [|k' l IHl]; intros Nl; simpl; [reflexivity|].
      destruct (Z.eqb_spec k k'); [exfalso; apply Nl; now left|].
      apply IHl. intros H; apply Nl; now right. }
    rewrite Z0; [reflexivity|]. intros H; apply Nk, list_elem_of_In, H.
  - destruct Hin as [->|Hin]; [congruence|]. simpl. now apply IH.
Qed.

Lemma sum_nat_zero {A} (ks : list A) : sum_nat (fun _ => 0%nat) ks = 0%nat.
Proof. induction ks; simpl; auto. Qed.

Lemma sum_nat_plus {A} (f g : A -> nat) (ks : list A) :
  sum_nat (fun k => (f k + g k)%nat) ks = (sum_nat f ks + sum_nat g ks)%nat.
Proof. induction ks; simpl; [reflexivity|]. rewrite IHks. lia. Qed.

Lemma sum_nat_ext {A} (f g : A -> nat) (ks : list A) :
  (forall k, In k ks -> f k = g k) -> sum_nat f ks = sum_nat g ks.
Proof.
  induction ks as [|k ks IH]; intros H; simpl; [reflexivity|].
  rewrite (H k (or_introl eq_refl)), IH; [reflexivity|]. intros k' Hk'. apply H. now right.
Qed.

(** [filter] on a boolean test, one element at a time *)
Lemma filter_bool_cons {A} (p : A -> bool) (x : A) (l : list A) :
  filter (fun y => p y) (x :: l) = if p x then x :: filter (fun y => p y) l
                                   else filter (fun y => p y) l.
Proof.
  rewrite filter_cons. case_decide as D; destruct (p x); cbv in D; tauto.
Qed.

Lemma group_sizes_partition (ks : list Z) (ts : list trade) :
  NoDup ks -> (forall t, In t ts -> In (hour_of t) ks) ->
  sum_nat (fun k => length (filter (fun t => (hour_of t =? k)%Z) ts)) ks = length ts.
Proof.
  intros ND. induction ts as [|t ts IH]; intros Hk.
  - apply sum_nat_zero.
  - rewrite (sum_nat_ext _ (fun k => ((if (hour_of t =? k)%Z then 1 else 0)
                     + length (filter (fun t => (hour_of t =? k)%Z) ts))%nat)).
    + rewrite sum_nat_plus, sum_nat_indicator, IH; [simpl; lia| | |].
      * intros t' H'. apply Hk. now right.
      * exact ND.
      * apply Hk. now left.
    + intros k _. rewrite filter_bool_cons. destruct (hour_of t =? k)%Z; reflexivity.
Qed.

Lemma sum_Q_counts {A} (f : A -> nat) (ks : list A) :
  sum_Q (map (fun k => inject_Z (Z.of_nat (f k))) ks) = inject_Z (Z.of_nat (sum_nat f ks)).
Proof.
  induction ks as [|k ks IH]; simpl; [reflexivity|].
  unfold sum_Q in *. simpl. rewrite IH, Nat2Z.inj_add, inject_Z_plus. reflexivity.
Qed.

Lemma hourly_stats_keys (std_dev : list Q -> Q) (ts : list trade) :
  map fst (hourly_stats_of std_dev ts) = group_keys ts.
Proof. unfold hourly_stats_of. rewrite map_map. apply map_id. Qed.

(** X1. Grouping one page by hour keeps every trade exactly once: the
    [tradeID] counts of the hourly rows add up to the number of trades of
    the page. *)
Theorem hourly_stats_count_conservation (std_dev : list Q -> Q) (ts : list trade) :
  count_sum (hourly_stats_of std_dev ts) = inject_Z (Z.of_nat (length ts)).
Proof.
  unfold count_sum, hourly_stats_of. rewrite map_map. simpl.
  rewrite (map_ext _ (fun k => inject_Z (Z.of_nat
             (length (filter (fun t => (hour_of t =? k)%Z) ts))))).
  - rewrite sum_Q_counts, group_sizes_partition; [reflexivity| |].
    + apply strongly_sorted_NoDup, group_keys_sorted.
    + intros t Ht. apply group_keys_In. eauto.
  - intros k. rewrite length_map. reflexivity.
Qed.

(** X2. The hourly rows of a page are in strictly increasing hour order (so
    no hour appears twice), and their hours are exactly the hours of the
    page's trades. *)
Theorem hourly_stats_keys_sorted (std_dev : list Q -> Q) (ts : list trade) :
  StronglySorted Z.lt (map fst (hourly_stats_of std_dev ts)) /\
  forall k, In k (map fst (hourly_stats_of std_dev ts)) <->
            exists t, In t ts /\ hour_of t = k.
Proof.
  rewrite hourly_stats_keys. split; [apply group_keys_sorted|apply group_keys_In].
Qed.

Lemma sum_Q_indicator (g : list trade) :
  (sum_Q (map (field_value FType) g) == inject_Z (Z.of_nat (count_buys g)))%Q.
Proof.
  unfold count_buys. induction g as [|t g IH]; [reflexivity|].
  rewrite filter_bool_cons. unfold sum_Q in *. simpl. rewrite IH.
  destruct (contains (type_ t) "buy"); simpl;
    rewrite ?Nat2Z.inj_succ, ?inject_Z_plus; unfold Z.succ; rewrite ?inject_Z_plus; ring.
Qed.

(** X3. In the hourly row of hour [k], every column counts the page's
    trades of that hour, and the mean of the side column ([type] turned
    into 1 for buy, 0 otherwise) is the fraction of those trades that are
    buys. *)
Theorem hourly_row_counts_and_buy_fraction (std_dev : list Q -> Q) (ts : list trade)
    (k : Z) (r : row) :
  In (k, r) (hourly_stats_of std_dev ts) ->
  let g := filter (fun t => (hour_of t =? k)%Z) ts in
  (forall f, s_count (r f) = inject_Z (Z.of_nat (length g))) /\
  (s_mean (r FType) == inject_Z (Z.of_nat (count_buys g)) / inject_Z (Z.of_nat (length g)))%Q.
Proof.
  intros Hin g. unfold hourly_stats_of in Hin. apply in_map_iff in Hin.
  destruct Hin as [k' [E _]]. injection E as <- <-. split.
  - intros f. simpl. rewrite length_map. reflexivity.
  - simpl. rewrite length_map. fold g. rewrite sum_Q_indicator. reflexivity.
Qed.


Lemma hourly_row_counts_and_buy_fraction_witness :
  let F := hourly_stats_of no_std (ex_old_page ++ ex_new_page) in
  let r := snd (nth 1 F (0, snd ex_bar)) in
  In (1, r) F /\ s_count (r FRate) = 2%Q /\ (s_mean (r FType) == 1#2)%Q.
Proof.
  intros F r.
  assert (Hin : In (1, r) F).
  { assert (E : (1, r) = nth 1 F (0, snd ex_bar)) by (vm_compute; reflexivity).
    rewrite E. apply nth_In. vm_compute. lia. }
  destruct (hourly_row_counts_and_buy_fraction no_std (ex_old_page ++ ex_new_page) 1 r Hin)
    as [C M].
  split; [exact Hin|]. split.
  - rewrite C. vm_compute. reflexivity.
  - rewrite M. vm_compute. reflexivity.
Defined.

(** ** Further properties: the overlap merge of [get_trades] *)

Lemma count_sum_cons (p : Z * row) (df : frame) :
  count_sum (p :: df) = (s_count (snd p FTradeID) + count_sum df)%Q.
Proof. reflexivity. Qed.

Lemma count_sum_app (df1 df2 : frame) :
  (count_sum (df1 ++ df2) == count_sum df1 + count_sum df2)%Q.
Proof.
  induction df1 as [|p df1 IH]; simpl app.
  - unfold count_sum at 2. simpl. ring.
  - rewrite !count_sum_cons, IH. ring.
Qed.

Lemma frame_set_cons (k' : Z) (r' : row) (df : frame) (k : Z) (r : row) :
  frame_set ((k', r') :: df) k r =
  (if (k' =? k)%Z then (k, r) else (k', r')) :: frame_set df k r.
Proof. reflexivity. Qed.

Lemma frame_drop_cons (k' : Z) (r' : row) (df : frame) (k : Z) :
  frame_drop ((k', r') :: df) k =
  if (k' =? k)%Z then frame_drop df k else (k', r') :: frame_drop df k.
Proof.
  unfold frame_drop, frame. rewrite filter_cons. simpl.
  destruct (k' =? k)%Z; case_decide as D; cbv in D; tauto.
Qed.

Lemma frame_set_absent (df : frame) (k : Z) (r : row) :
  ~ In k (map fst df) -> frame_set df k r = df.
Proof.
  induction df as [|[k' r'] df IH]; intros H; [reflexivity|].
  rewrite frame_set_cons. simpl in H.
  destruct (Z.eqb_spec k' k); [tauto|]. rewrite IH; tauto.
Qed.

Lemma frame_drop_absent (df : frame) (k : Z) :
  ~ In k (map fst df) -> frame_drop df k = df.
Proof.
  induction df as [|[k' r'] df IH]; intros H; [reflexivity|].
  rewrite frame_drop_cons. simpl in H.
  destruct (Z.eqb_spec k' k); [tauto|]. rewrite IH; tauto.
Qed.

Lemma count_sum_set (df : frame) (k : Z) (r0 r : row) :
  NoDup (map fst df) -> frame_lookup df k = Some r0 ->
  (count_sum (frame_set df k r) + s_count (r0 FTradeID)
   == count_sum df + s_count (r FTradeID))%Q.
Proof.
  induction df as [|[k' r'] df IH]; intros ND L; [discriminate|].
  simpl in ND. apply NoDup_cons in ND as [Nk ND]. simpl in L.
  rewrite frame_set_cons, !count_sum_cons. destruct (Z.eqb_spec k' k) as [->|Ne].
  - injection L as ->. rewrite frame_set_absent.
    + simpl. ring.
    + intros H. apply Nk, list_elem_of_In, H.
  - specialize (IH ND L). simpl. rewrite <- Qplus_assoc, IH. ring.
Qed.

Lemma count_sum_drop (df : frame) (k : Z) (r0 : row) :
  NoDup (map fst df) -> frame_lookup df k = Some r0 ->
  (count_sum (frame_drop df k) + s_count (r0 FTradeID) == count_sum df)%Q.
Proof.
  induction df as [|[k' r'] df IH]; intros ND L; [discriminate|].
  simpl in ND. apply NoDup_cons in ND as [Nk ND]. simpl in L.
  rewrite frame_drop_cons, count_sum_cons. destruct (Z.eqb_spec k' k) as [->|Ne].
  - injection L as ->. rewrite frame_drop_absent.
    + simpl. ring.
    + intros H. apply Nk, list_elem_of_In, H.
  - specialize (IH ND L). rewrite count_sum_cons. simpl.
    rewrite <- Qplus_assoc, IH. reflexivity.
Qed.

(** X4. One iteration of the page loop of [get_trades] keeps the number of
    trades: when neither frame repeats an hour, the overlap check never
    raises, and the [tradeID] counts of the new frame add up to those of the
    old frame plus those of the new page, whether the overlapping hour is
    merged or the frames are just concatenated. *)
Theorem page_step_count_conservation (trades_df hourly_stats : frame) :
  NoDup (map fst trades_df) -> NoDup (map fst hourly_stats) ->
  exists df', page_step trades_df hourly_stats = Ok df' /\
    (count_sum df' == count_sum trades_df + count_sum hourly_stats)%Q.
Proof.
  intros ND1 ND2. unfold page_step.
  destruct (frame_min_key trades_df) as [kmin|] eqn:Emin;
    [|eexists; split; [reflexivity|apply count_sum_app]].
  destruct (frame_max_key hourly_stats) as [kmax|] eqn:Emax;
    [|eexists; split; [reflexivity|apply count_sum_app]].
  destruct (Z.eqb_spec kmin kmax) as [<-|Ne];
    [|eexists; split; [reflexivity|apply count_sum_app]].
  destruct (frame_min_key_lookup _ _ Emin) as [r1 L1].
  destruct (frame_max_key_lookup _ _ Emax) as [r2 L2].
  rewrite L1, L2. eexists; split; [reflexivity|].
  rewrite count_sum_app.
  pose proof (count_sum_set trades_df kmin r1 (merge_rows r1 r2) ND1 L1) as S.
  pose proof (count_sum_drop hourly_stats kmin r2 ND2 L2) as D.
  change (s_count (merge_rows r1 r2 FTradeID))
    with (s_count (r1 FTradeID) + s_count (r2 FTradeID))%Q in S.
  lra.
Qed.

Lemma page_step_count_conservation_witness :
  exists df', page_step ex_trades_df ex_hourly = Ok df' /\ (count_sum df' == 4)%Q.
Proof.
  destruct (page_step_count_conservation ex_trades_df ex_hourly) as [df' [E C]].
  - apply (bool_decide_unpack _). vm_compute. reflexivity.
  - apply (bool_decide_unpack _). vm_compute. reflexivity.
  - exists df'. split; [exact E|]. rewrite C. vm_compute. reflexivity.
Defined.

(** ** Further properties: replaying the fetched frames *)

(** One pass of the [for] loop of [update_market_data], market by market:
    an exhausted iterator leaves the market's lists as they are. *)
Lemma update_markets_exact (ms : list string) : forall dh,
  NoDup ms ->
  (forall m, In m ms -> is_Some (dh_market_snapshots dh !! m) /\
                        is_Some (dh_latest_market_data dh !! m)) ->
  exists dh', update_markets ms dh = Ok dh' /\
    dh_markets dh' = dh_markets dh /\
    (forall k, ~ In k ms -> dh_market_snapshots dh' !! k = dh_market_snapshots dh !! k /\
                           dh_latest_market_data dh' !! k = dh_latest_market_data dh !! k) /\
    (forall m s l, In m ms ->
       dh_market_snapshots dh !! m = Some s ->
       dh_latest_market_data dh !! m = Some l ->
       dh_market_snapshots dh' !! m = Some (drop 1 s) /\
       dh_latest_market_data dh' !! m = Some (l ++ take 1 s)) /\
    (dh_continue_backtest dh' = true <->
       dh_continue_backtest dh = true /\
       forall m, In m ms -> exists b rest, dh_market_snapshots dh !! m = Some (b :: rest)).
Proof.
  induction ms as [|m ms IH]; intros dh ND H.
  - exists dh. split; [reflexivity|]. split; [reflexivity|].
    split; [auto|]. split; [intros ? ? ? []|]. split; [|tauto]. intros C. split; [exact C|].
    intros ? [].
  - apply NoDup_cons in ND as [Nm ND].
    assert (Nm' : ~ In m ms) by (intros Hi; apply Nm, list_elem_of_In, Hi).
    clear Nm; rename Nm' into Nm.
    destruct (H m (or_introl eq_refl)) as [[sm Hs] [lm Hl]].
    simpl. unfold update_one_market at 1. rewrite Hs.
    destruct sm as [|b rest].
    + simpl. destruct (IH (set_continue dh false) ND) as [dh' [E [Mk [Out [Adv Cf]]]]].
      { intros k Hk. apply H. now right. }
      exists dh'. split; [exact E|]. unfold set_continue in *. simpl in *.
      split; [exact Mk|].
      split; [intros k Hk; apply Out; tauto|].
      split.
      { intros m' s' l' [<-|Hin] Hs' Hl'.
        - destruct (Out m Nm) as [O1 O2]. rewrite O1, O2.
          rewrite Hs in Hs' |- *. rewrite Hl in Hl' |- *.
          injection Hs' as <-. injection Hl' as <-. simpl. rewrite app_nil_r. auto.
        - apply Adv; assumption. }
      split.
      * intros C. apply Cf in C. destruct C as [C _]. discriminate.
      * intros [_ A]. destruct (A m (or_introl eq_refl)) as [b [r E']]. congruence.
    + rewrite Hl. simpl.
      set (dh1 := {| dh_markets := dh_markets dh;
                     dh_market_data := dh_market_data dh;
                     dh_market_snapshots := <[m := rest]> (dh_market_snapshots dh);
                     dh_latest_market_data := <[m := lm ++ [b]]> (dh_latest_market_data dh);
                     dh_continue_backtest := dh_continue_backtest dh |}).
      destruct (IH dh1 ND) as [dh' [E [Mk [Out [Adv Cf]]]]].
      { intros k Hk. subst dh1; simpl.
        rewrite !lookup_insert_is_Some'. destruct (H k (or_intror Hk)); auto. }
      exists dh'. split; [exact E|]. subst dh1; simpl in *.
      split; [exact Mk|].
      split.
      { intros k Hk. destruct (Out k ltac:(tauto)) as [O1 O2].
        rewrite O1, O2, !lookup_insert_ne by (intros ->; tauto). auto. }
      split.
      { intros m' s' l' [<-|Hin] Hs' Hl'.
        - destruct (Out m Nm) as [O1 O2]. rewrite O1, O2, !lookup_insert_eq.
          rewrite Hs in Hs'; rewrite Hl in Hl'. injection Hs' as <-.
          injection Hl' as <-. auto.
        - apply Adv; [exact Hin| |];
            rewrite lookup_insert_ne by (intros ->; tauto); assumption. }
      rewrite Cf. split.
      * intros [C A]. split; [exact C|]. intros k [<-|Hk]; [eauto|].
        destruct (A k Hk) as [b' [r' E']].
        rewrite lookup_insert_ne in E' by (intros ->; tauto). eauto.
      * intros [C A]. split; [exact C|]. intros k Hk.
        destruct (A k (or_intror Hk)) as [b' [r' E']]. exists b', r'.
        rewrite lookup_insert_ne by (intros ->; tauto). exact E'.
Qed.

Lemma drop_cons_iff {A} (j : nat) (l : list A) :
  (exists b rest, drop j l = b :: rest) <-> (j < length l)%nat.
Proof.
  pose proof (length_drop l j) as L. destruct (drop j l) as [|b rest].
  - simpl in L. split; [intros [? [? ?]]; discriminate|lia].
  - simpl in L. split; [lia|eauto].
Qed.

Lemma advance_n_replay (ms : list string) (fetched : string -> frame) (n : nat) :
  forall j dh q, NoDup ms -> dh_markets dh = ms ->
  (forall m, In m ms -> dh_market_snapshots dh !! m = Some (drop j (fetched m) : list bar) /\
                        dh_latest_market_data dh !! m = Some (take j (fetched m) : list bar)) ->
  (dh_continue_backtest dh = true <-> forall m, In m ms -> (j <= length (fetched m))%nat) ->
  exists dh', advance_n n dh q = Ok (dh', q ++ repeat (Some MarketEvent) n) /\
    dh_markets dh' = ms /\
    (forall m, In m ms -> dh_market_snapshots dh' !! m = Some (drop (j + n) (fetched m) : list bar) /\
                          dh_latest_market_data dh' !! m = Some (take (j + n) (fetched m) : list bar)) /\
    (dh_continue_backtest dh' = true <->
       forall m, In m ms -> (j + n <= length (fetched m))%nat).
Proof.
  induction n as [|n IH]; intros j dh q ND Mk Inv C.
  - exists dh. simpl. rewrite app_nil_r, Nat.add_0_r. auto.
  - simpl advance_n. unfold update_market_data. rewrite Mk.
    destruct (update_markets_exact ms dh ND) as [dh1 [E [Mk1 [Out [Adv Cf]]]]].
    { intros m Hm. destruct (Inv m Hm) as [A B]. split; eexists; [exact A|exact B]. }
    rewrite E. simpl.
    destruct (IH (S j) dh1 (q ++ [Some MarketEvent]) ND) as [dh' [E' [Mk' [Inv' C']]]].
    + congruence.
    + intros m Hm. destruct (Inv m Hm) as [A B].
      destruct (Adv m _ _ Hm A B) as [A1 B1].
      split; [etransitivity; [exact A1|] | etransitivity; [exact B1|]]; f_equal;
        [rewrite drop_drop | rewrite take_take_drop]; f_equal; lia.
    + rewrite Cf, C. split.
      * intros [L A] m Hm. destruct (A m Hm) as [b [r Eb]].
        destruct (Inv m Hm) as [Hs _]. rewrite Hs in Eb. injection Eb as Eb.
        assert (Hlt : (j < length (fetched m))%nat) by (apply drop_cons_iff; eauto). lia.
      * intros L. split; [intros m Hm; specialize (L m Hm); lia|].
        intros m Hm. destruct (Inv m Hm) as [Hs _]. rewrite Hs.
        destruct (proj2 (drop_cons_iff j (fetched m))) as [b [r Eb]];
          [specialize (L m Hm); lia|].
        rewrite Eb. eauto.
    + exists dh'. rewrite <- app_assoc in E'. simpl in E'.
      replace (j + S n)%nat with (S j + n)%nat by lia. auto.
Qed.

(** X5. Replaying from a freshly constructed handler with distinct markets:
    after [n] calls of [update_market_data] the queue holds [n] new
    [MarketEvent]s, every market's revealed list is the first [n] rows of
    its fetched frame (fewer if the frame is shorter) and its iterator holds
    the rest; [continue_backtest] is still true exactly when no market's
    frame has fewer than [n] rows. *)
Theorem replay_from_init (ms : list string) (fetched : string -> frame) (n : nat) (q : queue) :
  NoDup ms ->
  exists dh', advance_n n (init_data_handler ms fetched) q
                = Ok (dh', q ++ repeat (Some MarketEvent) n) /\
    (forall m, In m ms -> dh_latest_market_data dh' !! m = Some (take n (fetched m) : list bar) /\
                          dh_market_snapshots dh' !! m = Some (drop n (fetched m) : list bar)) /\
    (dh_continue_backtest dh' = true <-> forall m, In m ms -> (n <= length (fetched m))%nat).
Proof.
  intros ND.
  destruct (advance_n_replay ms fetched n 0 (init_data_handler ms fetched) q ND eq_refl)
    as [dh' [E [_ [Inv C]]]].
  - intros m Hm. simpl. split.
    + apply (list_to_map_graph_lookup fetched ms m Hm).
    + apply (list_to_map_graph_lookup (fun _ => @nil bar) ms m Hm).
  - simpl. split; [intros _ m _; lia|reflexivity].
  - exists dh'. split; [exact E|]. split; [|exact C].
    intros m Hm. destruct (Inv m Hm). auto.
Qed.

Lemma replay_from_init_witness :
  exists dh', advance_n 2 ex_replay_xy [] = Ok (dh', [Some MarketEvent; Some MarketEvent]) /\
    dh_latest_market_data dh' !! "X" = Some (take 2 ex_frame3) /\
    dh_continue_backtest dh' = false.
Proof.
  destruct (replay_from_init ["X"; "Y"]
              (fun m => if String.eqb m "X" then ex_frame3 else []) 2 [])
    as [dh' [E [L C]]].
  - apply (bool_decide_unpack _). vm_compute. reflexivity.
  - exists dh'. split; [exact E|]. split.
    + apply L. left. reflexivity.
    + destruct (dh_continue_backtest dh') eqn:Cd; [|reflexivity]. exfalso.
      pose proof (proj1 C eq_refl "Y"%string (or_intror (or_introl eq_refl))) as Y.
      simpl in Y. lia.
Defined.

(** ** Further properties: the latest-bar query with [N <= 0] *)

(** X6. With [N <= 0] the slice [snapshot_list[-N:]] starts at index [-N]:
    [get_latest_market_data] prints nothing and returns the bar at position
    [-N] from the oldest, or [None] past the end; in particular [N = 0]
    returns the oldest revealed bar. *)
Theorem get_latest_market_data_nonpositive_N (dh : data_handler) (m : string)
    (l : list bar) (N : Z) :
  dh_latest_market_data dh !! m = Some l -> N <= 0 ->
  get_latest_market_data dh m N = ([], nth_error l (Z.to_nat (- N))) /\
  get_latest_market_data dh m 0 = ([], head l).
Proof.
  intros Hl HN.
  assert (G : forall N, N <= 0 ->
            get_latest_market_data dh m N = ([], nth_error l (Z.to_nat (- N)))).
  { clear N HN. intros N HN. unfold get_latest_market_data, py_slice_from. rewrite Hl.
    replace (- N <? 0) with false by (symmetry; apply Z.ltb_ge; lia).
    cbv zeta.
    assert (K : nth_error l (Z.to_nat (Z.min (- N) (Z.of_nat (length l))))
                = nth_error l (Z.to_nat (- N))).
    { destruct (Z.le_ge_cases (- N) (Z.of_nat (length l))).
      - rewrite Z.min_l by lia. reflexivity.
      - rewrite Z.min_r by lia.
        rewrite !(proj2 (nth_error_None _ _)); [reflexivity|lia|lia]. }
    rewrite <- K. pose proof (head_drop_nth_error l
                                (Z.to_nat (Z.min (- N) (Z.of_nat (length l))))) as Hd.
    destruct (drop _ l) as [|b r]; rewrite <- Hd; reflexivity. }
  split; [now apply G|]. rewrite G by lia. destruct l; reflexivity.
Qed.

Lemma get_latest_market_data_nonpositive_N_witness :
  get_latest_market_data ex_replay2 "X" 0 = ([], Some (1, snd ex_bar)) /\
  get_latest_market_data ex_replay2 "X" (-1) = ([], Some (2, snd ex_bar)).
Proof.
  destruct (get_latest_market_data_nonpositive_N ex_replay2 "X"
              [(1, snd ex_bar); (2, snd ex_bar)] (-1)) as [E1 E0].
  - vm_compute. reflexivity.
  - lia.
  - split; [exact E0|exact E1].
Defined.

(** ** Further properties: the portfolio constructor without [start_date] *)

(** X7. [NaivePortfolio(market_data, events)] without a [start_date] on a
    handler built from the frames [fetched]: with no markets
    [markets[0]] raises [IndexError]; when the first market's frame is
    empty [index[0]] raises [IndexError]; otherwise the start date is the
    first index of the first market's frame, and it dates the first row of
    both histories. *)
Theorem init_portfolio_default_start (ms : list string) (fetched : string -> frame) (cap : Q) :
  (ms = [] -> init_portfolio (init_data_handler ms fetched) None cap = Err IndexError) /\
  (forall m ms', ms = m :: ms' ->
     (fetched m = [] -> init_portfolio (init_data_handler ms fetched) None cap = Err IndexError) /\
     (forall k r rest, fetched m = (k, r) :: rest ->
        exists pf, init_portfolio (init_data_handler ms fetched) None cap = Ok pf /\
          pf_start_date pf = k /\
          map pr_datetime (pf_all_positions pf) = [Some k] /\
          map hr_datetime (pf_all_holdings pf) = [Some k])).
Proof.
  split; [intros ->; reflexivity|]. intros m ms' ->.
  assert (L : dh_market_data (init_data_handler (m :: ms') fetched) !! m
              = Some (fetched m : list (Z * row))).
  { simpl. apply lookup_insert_eq. }
  split.
  - intros E. unfold init_portfolio. simpl dh_markets. cbv beta iota zeta.
    rewrite L, E. reflexivity.
  - intros k r rest E. unfold init_portfolio. simpl dh_markets. cbv beta iota zeta.
    rewrite L, E. eexists. split; [reflexivity|]. auto.
Qed.

Lemma init_portfolio_default_start_witness :
  init_portfolio ex_replay None 100000 = Err IndexError \/
  exists pf, init_portfolio ex_replay None 100000 = Ok pf /\ pf_start_date pf = 1.
Proof.
  right. destruct (proj2 (init_portfolio_default_start ["X"] (fun _ => ex_frame3) 100000)
                     "X" [] eq_refl) as [_ H].
  destruct (H 1 (snd ex_bar) [(2, snd ex_bar); (3, snd ex_bar)] eq_refl) as [pf [E [S _]]].
  exists pf. split; [exact E|exact S].
Defined.

(** ** Further properties: sequences of fills *)

Lemma apply_fills_spec (fs : list fill) : forall pf : portfolio,
  (forall f, In f fs ->
     is_Some (pf_current_positions pf !! fill_market f) /\
     is_Some (h_markets (pf_current_holdings pf) !! fill_market f)) ->
  exists pf', apply_fills pf fs = Ok pf' /\
    pf_markets pf' = pf_markets pf /\
    pf_all_positions pf' = pf_all_positions pf /\
    pf_all_holdings pf' = pf_all_holdings pf /\
    (forall m, pf_current_positions pf' !! m =
               option_map (fun p => p + position_change m fs) (pf_current_positions pf !! m)) /\
    (forall m, (h_markets (pf_current_holdings pf') !! m = None <->
                h_markets (pf_current_holdings pf) !! m = None) /\
               forall v, h_markets (pf_current_holdings pf) !! m = Some v ->
                 exists v', h_markets (pf_current_holdings pf') !! m = Some v' /\
                            (v' == v + cost_on m fs)%Q) /\
    (h_cash (pf_current_holdings pf') ==
       h_cash (pf_current_holdings pf) - (fills_cost fs + fills_commission fs))%Q /\
    (h_commission (pf_current_holdings pf') ==
       h_commission (pf_current_holdings pf) + fills_commission fs)%Q /\
    (h_total (pf_current_holdings pf') ==
       h_total (pf_current_holdings pf) - (fills_cost fs + fills_commission fs))%Q.
Proof.
  induction fs as [|f fs IH]; intros pf H.
  - exists pf. split; [reflexivity|]. do 3 (split; [reflexivity|]). split.
    { intros m. destruct (pf_current_positions pf !! m); simpl; [f_equal; lia|reflexivity]. }
    split.
    { intros m. split; [tauto|]. intros v Hv. exists v. split; [exact Hv|]. simpl. ring. }
    simpl. repeat split; ring.
  - destruct (H f (or_introl eq_refl)) as [[p Hp] [v Hv]].
    cbn [apply_fills]. rewrite (update_fill_step pf f p v Hp Hv). cbn [res_bind].
    destruct (IH (with_current pf
          (<[fill_market f := p + fill_dir (fill_direction f) * fill_quantity f]>
             (pf_current_positions pf))
          (mkHoldings (<[fill_market f := (v + inject_Z (fill_dir (fill_direction f))
                                              * fill_price f * inject_Z (fill_quantity f))%Q]>
                         (h_markets (pf_current_holdings pf)))
             (h_cash (pf_current_holdings pf)
              - (inject_Z (fill_dir (fill_direction f)) * fill_price f
                 * inject_Z (fill_quantity f) + fill_commission f))%Q
             (h_commission (pf_current_holdings pf) + fill_commission f)%Q
             (h_total (pf_current_holdings pf)
              - (inject_Z (fill_dir (fill_direction f)) * fill_price f
                 * inject_Z (fill_quantity f) + fill_commission f))%Q)))
      as [pf' [E [Mk [Ap [Ah [P [Hm [C [Cm T]]]]]]]]].
    { intros g Hg. simpl. rewrite !lookup_insert_is_Some'.
      destruct (H g (or_intror Hg)). auto. }
    exists pf'. split; [exact E|]. simpl in Mk, Ap, Ah.
    split; [exact Mk|]. split; [exact Ap|]. split; [exact Ah|].
    split.
    { intros m. rewrite P. simpl. unfold position_change at 2. simpl. fold (position_change m fs).
      destruct (String.eq_dec (fill_market f) m) as [<-|Ne].
      - rewrite lookup_insert_eq, Hp, String.eqb_refl. simpl. f_equal. lia.
      - rewrite lookup_insert_ne by exact Ne.
        rewrite (proj2 (String.eqb_neq _ _) Ne).
        destruct (pf_current_positions pf !! m); simpl; [f_equal; lia|reflexivity]. }
    split.
    { intros m. destruct (Hm m) as [N S]. simpl in N, S. split.
      - rewrite N. destruct (String.eq_dec (fill_market f) m) as [<-|Ne].
        + rewrite lookup_insert_eq, Hv. split; discriminate.
        + rewrite lookup_insert_ne by exact Ne. tauto.
      - intros v0 Hv0. unfold cost_on. simpl. fold (cost_on m fs).
        destruct (String.eq_dec (fill_market f) m) as [<-|Ne].
        + rewrite Hv in Hv0. injection Hv0 as <-.
          destruct (S _ (lookup_insert_eq _ _ _)) as [v' [Hv' Q']].
          exists v'. split; [exact Hv'|]. rewrite Q', String.eqb_refl. ring.
        + rewrite (proj2 (String.eqb_neq _ _) Ne).
          destruct (S v0) as [v' [Hv' Q']];
            [rewrite lookup_insert_ne by exact Ne; exact Hv0|].
          exists v'. split; [exact Hv'|]. rewrite Q'. ring. }
    simpl in C, Cm, T. simpl fills_cost. simpl fills_commission.
    rewrite C, Cm, T. repeat split; ring.
Qed.

Lemma zeros_lookup_None {A} (z : A) (ms : list string) (m : string) :
  ~ In m ms -> zeros z ms !! m = None.
Proof.
  intros Hm. apply not_elem_of_list_to_map_1. rewrite list_elem_of_In.
  intros Hin. apply Hm. apply in_map_iff in Hin as [[k x] [E Hk]].
  apply in_map_iff in Hk as [k' [E' Hk']]. injection E' as <- <-. simpl in E. congruence.
Qed.

Lemma fills_from_init (dh : data_handler) (sd : option Z) (cap : Q) (pf : portfolio)
    (fs : list fill) :
  init_portfolio dh sd cap = Ok pf ->
  (forall f, In f fs -> In (fill_market f) (dh_markets dh)) ->
  exists pf', apply_fills pf fs = Ok pf' /\
    (forall m, In m (dh_markets dh) ->
       pf_current_positions pf' !! m = Some (position_change m fs) /\
       exists v', h_markets (pf_current_holdings pf') !! m = Some v' /\
                  (v' == cost_on m fs)%Q) /\
    (forall m, ~ In m (dh_markets dh) ->
       pf_current_positions pf' !! m = None /\ h_markets (pf_current_holdings pf') !! m = None) /\
    (h_cash (pf_current_holdings pf') == cap - (fills_cost fs + fills_commission fs))%Q /\
    (h_commission (pf_current_holdings pf') == fills_commission fs)%Q /\
    (h_total (pf_current_holdings pf') == h_cash (pf_current_holdings pf'))%Q.
Proof.
  intros Hi Hf. destruct (init_portfolio_spec _ _ _ _ Hi) as [_ [Cp [Ch _]]].
  destruct (apply_fills_spec fs pf) as [pf' [E [_ [_ [_ [P [Hm [C [Cm T]]]]]]]]].
  { intros f Hin. rewrite Cp, Ch. simpl. rewrite !zeros_lookup by (apply Hf, Hin).
    split; eexists; reflexivity. }
  exists pf'. split; [exact E|]. rewrite Cp in P. rewrite Ch in Hm, C, Cm, T. simpl in *.
  split.
  { intros m Hin. rewrite P, zeros_lookup by exact Hin. split; [reflexivity|].
    destruct (Hm m) as [_ S]. destruct (S 0%Q) as [v' [Hv' Q']];
      [apply zeros_lookup, Hin|].
    exists v'. split; [exact Hv'|]. rewrite Q'. ring. }
  split.
  { intros m Hn. rewrite P, zeros_lookup_None by exact Hn. split; [reflexivity|].
    apply (proj2 (proj1 (Hm m))). apply zeros_lookup_None, Hn. }
  rewrite C, Cm, T. repeat split; ring.
Qed.

(** X8. Starting from [NaivePortfolio.__init__] and applying fills on the
    handler's markets with [update_fill]: each market's position is the
    signed sum of the filled quantities on it, its holdings entry the
    signed sum of their costs, [commission] the sum of the commissions,
    [cash] the initial capital less all costs and commissions, and [total]
    stays equal to [cash]: the market values are never added to it. *)
Theorem fills_from_init_ledger (dh : data_handler) (sd : option Z) (cap : Q)
    (pf : portfolio) (fs : list fill) :
  init_portfolio dh sd cap = Ok pf ->
  (forall f, In f fs -> In (fill_market f) (dh_markets dh)) ->
  exists pf', apply_fills pf fs = Ok pf' /\
    (forall m, In m (dh_markets dh) ->
       pf_current_positions pf' !! m = Some (position_change m fs) /\
       exists v', h_markets (pf_current_holdings pf') !! m = Some v' /\
                  (v' == cost_on m fs)%Q) /\
    (h_cash (pf_current_holdings pf') == cap - (fills_cost fs + fills_commission fs))%Q /\
    (h_commission (pf_current_holdings pf') == fills_commission fs)%Q /\
    (h_total (pf_current_holdings pf') == h_cash (pf_current_holdings pf'))%Q.
Proof.
  intros Hi Hf. destruct (fills_from_init dh sd cap pf fs Hi Hf)
    as [pf' [E [In' [_ [C [Cm T]]]]]].
  exists pf'. auto.
Qed.

Lemma fills_from_init_ledger_witness :
  exists pf', apply_fills ex_pf ex_free_fills = Ok pf' /\
    pf_current_positions pf' !! "X" = Some 60 /\
    (h_cash (pf_current_holdings pf') == 99480)%Q /\
    (h_total (pf_current_holdings pf') == 99480)%Q.
Proof.
  destruct (fills_from_init_ledger ex_dh (Some 0) 100000 ex_pf ex_free_fills)
    as [pf' [E [P [C [_ T]]]]].
  - vm_compute. reflexivity.
  - intros f Hf. simpl in Hf. destruct Hf as [<-|[<-|[]]]; left; reflexivity.
  - exists pf'. split; [exact E|]. split.
    + apply (P "X"%string). left. reflexivity.
    + split; [rewrite C; vm_compute; reflexivity|].
      rewrite T, C. vm_compute. reflexivity.
Defined.

(** X9. After [NaivePortfolio.__init__] and any fills on the handler's
    markets, a fill or a signal raises [KeyError] exactly when its market is
    not one of the handler's markets. *)
Theorem key_error_iff_unknown_market (dh : data_handler) (sd : option Z) (cap : Q)
    (pf : portfolio) (fs : list fill) :
  init_portfolio dh sd cap = Ok pf ->
  (forall f, In f fs -> In (fill_market f) (dh_markets dh)) ->
  exists pf', apply_fills pf fs = Ok pf' /\
    (forall f, update_fill pf' (FillEvent f) = Err KeyError <->
               ~ In (fill_market f) (dh_markets dh)) /\
    (forall s, generate_naive_order pf' s = Err KeyError <->
               ~ In (sig_market s) (dh_markets dh)).
Proof.
  intros Hi Hf. destruct (fills_from_init dh sd cap pf fs Hi Hf)
    as [pf' [E [Kn [Un _]]]].
  exists pf'. split; [exact E|]. split.
  - intros f. split.
    + intros Er Hin. destruct (Kn _ Hin) as [Hp [v [Hv _]]].
      rewrite (update_fill_step pf' f _ v Hp Hv) in Er. discriminate.
    + intros Hn. destruct (Un _ Hn) as [Hp _].
      unfold update_fill, update_positions_from_fill. rewrite Hp. reflexivity.
  - intros s. split.
    + intros Er Hin. destruct (Kn _ Hin) as [Hp _].
      unfold generate_naive_order in Er. rewrite Hp in Er.
      repeat match type of Er with
             | context [if ?b then _ else _] => destruct b
             end; discriminate.
    + intros Hn. destruct (Un _ Hn) as [Hp _].
      unfold generate_naive_order. rewrite Hp. reflexivity.
Qed.

Lemma key_error_iff_unknown_market_witness :
  exists pf', apply_fills ex_pf ex_free_fills = Ok pf' /\
    update_fill pf' (FillEvent (mkFill "Y" "BUY" 1 1 0)) = Err KeyError /\
    generate_naive_order pf' (mkSignal "Y" "LONG" 1 ex_bar) = Err KeyError.
Proof.
  destruct (key_error_iff_unknown_market ex_dh (Some 0) 100000 ex_pf ex_free_fills)
    as [pf' [E [F S]]].
  - vm_compute. reflexivity.
  - intros f Hf. simpl in Hf. destruct Hf as [<-|[<-|[]]]; left; reflexivity.
  - exists pf'. split; [exact E|]. split.
    + apply F. simpl. intros [H|[]]. discriminate.
    + apply S. simpl. intros [H|[]]. discriminate.
Defined.

(** ** Further properties: the rows appended by [update_timeindex] *)

Lemma get_latest_one (dh : data_handler) (m : string) :
  snd (get_latest_market_data dh m 1) =
  match dh_latest_market_data dh !! m with Some l => last l | None => None end.
Proof.
  unfold get_latest_market_data, py_slice_from.
  destruct (dh_latest_market_data dh !! m) as [l|]; [|reflexivity].
  cbv zeta. change (- (1) <? 0) with true. cbv iota.
  replace (Z.to_nat (Z.max 0 (Z.of_nat (length l) + - (1)))) with (pred (length l)) by lia.
  pose proof (head_drop_nth_error l (pred (length l))) as Hd.
  rewrite nth_error_pred_length_last in Hd.
  destruct (drop _ l); exact Hd.
Qed.

Lemma timeindex_loop_spec (dh : data_handler) (cur : gmap string Z) (ms : list string) :
  forall prow hrow,
  (forall m, In m ms -> is_Some (cur !! m)) ->
  hr_datetime hrow = pr_datetime prow ->
  exists prow' hrow', timeindex_loop dh cur ms prow hrow = Ok (prow', hrow') /\
    hr_markets hrow' = hr_markets hrow /\ hr_cash hrow' = hr_cash hrow /\
    hr_commission hrow' = hr_commission hrow /\
    (hr_total hrow' == hr_total hrow + sum_Q (map (market_value dh cur) ms))%Q /\
    hr_datetime hrow' = pr_datetime prow' /\
    (hr_datetime hrow' = None ->
       hr_datetime hrow = None /\ forall m, In m ms -> has_bar dh m = false) /\
    (forall d, hr_datetime hrow' = Some d ->
       hr_datetime hrow = Some d \/
       exists m (l : list bar) r, In m ms /\ dh_latest_market_data dh !! m = Some l /\
                     last l = Some (d, r)) /\
    (forall m, In m ms -> has_bar dh m = true -> pr_positions prow' !! m = cur !! m) /\
    (forall m, (~ In m ms \/ has_bar dh m = false) ->
       pr_positions prow' !! m = pr_positions prow !! m).
Proof.
  induction ms as [|m ms IH]; intros prow hrow Hc Hd.
  - exists prow, hrow. split; [reflexivity|]. do 3 (split; [reflexivity|]).
    split; [unfold sum_Q; simpl; ring|]. split; [exact Hd|].
    split; [intros N; split; [exact N|intros ? []]|].
    split; [intros d D; now left|].
    split; [intros ? []|]. auto.
  - cbn [timeindex_loop]. rewrite get_latest_one.
    assert (Tl : forall m', In m' ms -> is_Some (cur !! m')) by (intros; apply Hc; now right).
    assert (Sum : (sum_Q (map (market_value dh cur) (m :: ms))
                   == market_value dh cur m + sum_Q (map (market_value dh cur) ms))%Q)
      by reflexivity.
    destruct (dh_latest_market_data dh !! m) as [l|] eqn:Hl;
      [destruct (last l) as [[name r]|] eqn:Hlast|].
    + destruct (Hc m (or_introl eq_refl)) as [p Hp]. rewrite Hp.
      destruct (IH (mkPositionsRow (Some name) (<[m := p]> (pr_positions prow)))
                   (mkHoldingsRow (Some name) (hr_markets hrow) (hr_cash hrow)
                      (hr_commission hrow) (hr_total hrow + inject_Z p * s_mean (r FRate))%Q)
                   Tl eq_refl)
        as [prow' [hrow' [E [Mk [Ca [Co [T [D [N [O [P1 P2]]]]]]]]]]].
      assert (Hb : has_bar dh m = true) by (unfold has_bar; rewrite Hl, Hlast; reflexivity).
      exists prow', hrow'. split; [exact E|]. simpl in Mk, Ca, Co, T, D, N, O, P1, P2.
      split; [exact Mk|]. split; [exact Ca|]. split; [exact Co|].
      split.
      { assert (V : market_value dh cur m = (inject_Z p * s_mean (r FRate))%Q)
          by (unfold market_value; rewrite Hl, Hlast, Hp; reflexivity).
        rewrite T, Sum, V. ring. }
      split; [exact D|].
      split; [intros Nn; destruct (N Nn) as [Abs _]; discriminate|].
      split.
      { intros d Dd. destruct (O d Dd) as [Ed|[m' [l' [r' [H1 H2]]]]].
        - right. injection Ed as <-. exists m, l, r. split; [now left|auto].
        - right. exists m', l', r'. split; [now right|auto]. }
      split.
      { intros m' [<-|Hm'] Hb'.
        - destruct (in_dec string_dec m ms) as [Hin|Hn]; [now apply P1|].
          rewrite P2 by auto. simpl. rewrite lookup_insert_eq. congruence.
        - now apply P1. }
      intros m' Hm'. rewrite P2 by (destruct Hm' as [Hm'|Hm'];
                                    [left; intros H; apply Hm'; now right|now right]).
      simpl. rewrite lookup_insert_ne; [reflexivity|].
      intros <-. destruct Hm' as [Hm'|Hm']; [apply Hm'; now left|congruence].
    + assert (Hb : has_bar dh m = false) by (unfold has_bar; rewrite Hl, Hlast; reflexivity).
      destruct (IH prow hrow Tl Hd)
        as [prow' [hrow' [E [Mk [Ca [Co [T [D [N [O [P1 P2]]]]]]]]]]].
      exists prow', hrow'. split; [exact E|].
      do 3 (split; [assumption|]).
      assert (V : market_value dh cur m = 0%Q)
        by (unfold market_value; rewrite Hl, Hlast; reflexivity).
      split; [rewrite T, Sum, V; ring|].
      split; [exact D|].
      split; [intros Nn; destruct (N Nn) as [N1 N2]; split; [exact N1|];
              intros m' [<-|Hm']; [exact Hb|auto]|].
      split; [intros d Dd; destruct (O d Dd) as [?|[m' [l' [r' [Hi Hr]]]]]; [now left|right];
              exists m', l', r'; split; [now right|exact Hr]|].
      split; [intros m' [<-|Hm'] Hb'; [congruence|auto]|].
      intros m' Hm'. apply P2.
      destruct (in_dec string_dec m' ms) as [Hin|Hn]; [|now left].
      right. destruct Hm' as [Hm'|Hm']; [exfalso; apply Hm'; now right|exact Hm'].
    + assert (Hb : has_bar dh m = false) by (unfold has_bar; rewrite Hl; reflexivity).
      destruct (IH prow hrow Tl Hd)
        as [prow' [hrow' [E [Mk [Ca [Co [T [D [N [O [P1 P2]]]]]]]]]]].
      exists prow', hrow'. split; [exact E|].
      do 3 (split; [assumption|]).
      assert (V : market_value dh cur m = 0%Q)
        by (unfold market_value; rewrite Hl; reflexivity).
      split; [rewrite T, Sum, V; ring|].
      split; [exact D|].
      split; [intros Nn; destruct (N Nn) as [N1 N2]; split; [exact N1|];
              intros m' [<-|Hm']; [exact Hb|auto]|].
      split; [intros d Dd; destruct (O d Dd) as [?|[m' [l' [r' [Hi Hr]]]]]; [now left|right];
              exists m', l', r'; split; [now right|exact Hr]|].
      split; [intros m' [<-|Hm'] Hb'; [congruence|auto]|].
      intros m' Hm'. apply P2.
      destruct (in_dec string_dec m' ms) as [Hin|Hn]; [|now left].
      right. destruct Hm' as [Hm'|Hm']; [exfalso; apply Hm'; now right|exact Hm'].
Qed.

(** X10. The rows [update_timeindex] appends. When every market of the
    portfolio has a current position, it never raises and changes neither
    current position nor current holding. The new holdings row copies
    [cash] and [commission] and has no per-market entries. Its [total] is
    [cash] plus, for each market with a revealed bar, the position times
    that bar's mean rate. Both rows carry the same [datetime]: the index of
    the latest bar of one of the markets, or none when no market has a
    revealed bar. The positions row holds exactly the markets that have a
    bar. *)
Theorem update_timeindex_rows (dh : data_handler) (pf : portfolio) :
  (forall m, In m (pf_markets pf) -> is_Some (pf_current_positions pf !! m)) ->
  exists prow hrow,
    update_timeindex dh pf = Ok (with_histories pf (pf_all_positions pf ++ [prow])
                                                   (pf_all_holdings pf ++ [hrow])) /\
    hr_cash hrow = h_cash (pf_current_holdings pf) /\
    hr_commission hrow = h_commission (pf_current_holdings pf) /\
    hr_markets hrow = ∅ /\
    (hr_total hrow == h_cash (pf_current_holdings pf)
       + sum_Q (map (market_value dh (pf_current_positions pf)) (pf_markets pf)))%Q /\
    hr_datetime hrow = pr_datetime prow /\
    (hr_datetime hrow = None <-> forall m, In m (pf_markets pf) -> has_bar dh m = false) /\
    (forall d, hr_datetime hrow = Some d ->
       exists m (l : list bar) r, In m (pf_markets pf) /\ dh_latest_market_data dh !! m = Some l /\
                     last l = Some (d, r)) /\
    (forall m, In m (pf_markets pf) -> has_bar dh m = true ->
       pr_positions prow !! m = pf_current_positions pf !! m) /\
    (forall m, (~ In m (pf_markets pf) \/ has_bar dh m = false) -> pr_positions prow !! m = None).
Proof.
  intros Hc. unfold update_timeindex.
  destruct (timeindex_loop_spec dh (pf_current_positions pf) (pf_markets pf)
              (mkPositionsRow None ∅)
              (mkHoldingsRow None ∅ (h_cash (pf_current_holdings pf))
                 (h_commission (pf_current_holdings pf)) (h_cash (pf_current_holdings pf)))
              Hc eq_refl)
    as [prow [hrow [E [Mk [Ca [Co [T [D [N [O [P1 P2]]]]]]]]]]].
  exists prow, hrow. rewrite E. simpl in *. split; [reflexivity|].
  do 4 (split; [assumption|]). split; [exact D|].
  split.
  { split; [intros Nn; apply N, Nn|].
    intros A. destruct (hr_datetime hrow) as [d|] eqn:Hd; [|reflexivity].
    destruct (O d eq_refl) as [Abs|[m [l [r [Hm [Hl Hlast]]]]]]; [discriminate|].
    specialize (A m Hm). unfold has_bar in A. rewrite Hl, Hlast in A. discriminate. }
  split.
  { intros d Hd. destruct (O d Hd) as [Abs|X]; [discriminate|exact X]. }
  split; [exact P1|]. intros m Hm. rewrite P2 by exact Hm. apply lookup_empty.
Qed.

Lemma update_timeindex_rows_witness :
  exists prow hrow,
    update_timeindex ex_replay2 (ex_pf_after ex_buy_fill) =
      Ok (with_histories (ex_pf_after ex_buy_fill)
            (pf_all_positions (ex_pf_after ex_buy_fill) ++ [prow])
            (pf_all_holdings (ex_pf_after ex_buy_fill) ++ [hrow])) /\
    (hr_total hrow == 99999)%Q /\ hr_datetime hrow = Some 2.
Proof.
  destruct (update_timeindex_rows ex_replay2 (ex_pf_after ex_buy_fill))
    as [prow [hrow [E [_ [_ [_ [T [_ [N [O _]]]]]]]]]].
  - intros m Hm. vm_compute in Hm. destruct Hm as [<-|[]]. vm_compute. eexists. reflexivity.
  - exists prow, hrow. split; [exact E|]. split.
    + rewrite T. vm_compute. reflexivity.
    + destruct (hr_datetime hrow) as [d|] eqn:Hd.
      * destruct (O d eq_refl) as [m [l [r [Hm [Hl Hlast]]]]].
        vm_compute in Hm. destruct Hm as [<-|[]]. vm_compute in Hl.
        injection Hl as <-. vm_compute in Hlast. congruence.
      * exfalso. pose proof (proj1 N eq_refl "X"%string ltac:(vm_compute; left; reflexivity))
          as B.
        vm_compute in B. discriminate.
Defined.

(** ** Further properties: filling the naive order *)

(** X11. Filling exactly the order [generate_naive_order] returns (same
    market, direction and quantity, any price and commission) with
    [update_fill] reverses a non-zero position ([p] becomes [-p]), and
    opens a flat one at [floor(fl(100 * strength))] units (the double
    product, as for C2), long for [LONG] and short for [SHORT]. *)
Theorem naive_order_fill_position (pf : portfolio) (s : signal) (o : order)
    (p : Z) (v price comm : Q) :
  pf_current_positions pf !! sig_market s = Some p ->
  h_markets (pf_current_holdings pf) !! sig_market s = Some v ->
  generate_naive_order pf s = Ok (Some o) ->
  exists pf',
    update_fill pf (FillEvent (mkFill (ord_market o) (ord_direction o) (ord_quantity o)
                                      price comm)) = Ok pf' /\
    pf_current_positions pf' !! sig_market s =
      Some (if (p =? 0)%Z
            then (if String.eqb (sig_signal_type s) "LONG" then 1 else -1)
                 * Qfloor (dbl_round (100 * sig_strength s))
            else - p).
Proof.
  intros Hp Hv Hg. unfold generate_naive_order in Hg. rewrite Hp in Hg.
  assert (K : forall dir q,
            Some o = Some (mkOrder (sig_market s) dir q
                             (s_mean (snd (sig_market_snapshot s) FRate))) ->
            exists pf',
              update_fill pf (FillEvent (mkFill (ord_market o) (ord_direction o)
                                                (ord_quantity o) price comm)) = Ok pf' /\
              pf_current_positions pf' !! sig_market s = Some (p + fill_dir dir * q)).
  { intros dir q Eo. injection Eo as ->. simpl.
    eexists. split.
    - exact (update_fill_step pf (mkFill (sig_market s) dir q price comm) p v Hp Hv).
    - simpl. apply lookup_insert_eq. }
  destruct (String.eqb_spec (sig_signal_type s) "LONG") as [L|L];
    destruct (String.eqb_spec (sig_signal_type s) "SHORT") as [S|S];
    try (rewrite L in S; discriminate S);
    destruct (Z.eqb_spec p 0) as [P0|P0]; simpl in Hg;
    try (destruct (Z.ltb_spec 0 p)); try (destruct (Z.ltb_spec p 0)); simpl in Hg;
    try discriminate; injection Hg as Hg;
    (edestruct (K _ _ (eq_sym (f_equal Some Hg))) as [pf' [E Po]]);
    exists pf'; split; try exact E; rewrite Po; f_equal; unfold fill_dir; simpl; lia.
Qed.

Lemma naive_order_fill_position_witness :
  exists pf',
    update_fill ex_long_pf (FillEvent (mkFill "X" "SELL" 200 10 0)) = Ok pf' /\
    pf_current_positions pf' !! "X" = Some (-100).
Proof.
  destruct (naive_order_fill_position ex_long_pf ex_short_signal (mkOrder "X" "SELL" 200 10)
              100 0 10 0) as [pf' [E P]].
  - vm_compute. reflexivity.
  - vm_compute. reflexivity.
  - vm_compute. reflexivity.
  - exists pf'. split; [exact E|exact P].
Defined.

(** ** Further properties: the frame [get_trades] returns *)

Lemma insert_row_perm (p : Z * row) (df : frame) : Permutation (insert_row p df) (p :: df).
Proof.
  induction df as [|q rest IH]; simpl; [reflexivity|].
  destruct (fst p <? fst q)%Z; [reflexivity|].
  rewrite IH. apply perm_swap.
Qed.

Lemma insert_row_sorted (p : Z * row) (df : frame) :
  StronglySorted Z.le (map fst df) -> StronglySorted Z.le (map fst (insert_row p df)).
Proof.
  induction df as [|q rest IH]; intros H; simpl.
  - repeat constructor.
  - apply StronglySorted_inv in H as [Hr Hq]. rewrite List.Forall_forall in Hq.
    destruct (Z.ltb_spec (fst p) (fst q)).
    + simpl. constructor; [constructor; [exact Hr|]|].
      * apply List.Forall_forall. exact Hq.
      * constructor; [lia|]. apply List.Forall_forall. intros w Hw.
        specialize (Hq w Hw). lia.
    + simpl. constructor; [apply IH, Hr|]. apply List.Forall_forall. intros w Hw.
      apply in_map_iff in Hw as [x [<- Hx]].
      apply (Permutation_in _ (insert_row_perm p rest)) in Hx as [<-|Hx]; [lia|].
      apply Hq, in_map, Hx.
Qed.

Lemma sort_index_perm (df : frame) : Permutation (sort_index df) df.
Proof.
  induction df as [|p df IH]; simpl; [reflexivity|].
  rewrite insert_row_perm. apply perm_skip, IH.
Qed.

Lemma sort_index_sorted (df : frame) : StronglySorted Z.le (map fst (sort_index df)).
Proof.
  induction df as [|p df IH]; simpl; [constructor|]. apply insert_row_sorted, IH.
Qed.

Lemma count_sum_perm (df df' : frame) :
  Permutation df df' -> (count_sum df == count_sum df')%Q.
Proof.
  induction 1 as [|p l l' _ IH|p q l|l l' l'' _ IH1 _ IH2].
  - reflexivity.
  - rewrite !count_sum_cons, IH. reflexivity.
  - rewrite !count_sum_cons. ring.
  - rewrite IH1, IH2. reflexivity.
Qed.

(** X12. A frame returned by [get_trades] is tagged with the requested
    currency pair, is never empty, has its hours in ascending order after
    [sort_index], and holds the same rows as the frame the page loop built,
    so its [tradeID] count total, the number reported in the final print,
    is the loop's. *)
Theorem get_trades_result (std_dev : list Q -> Q) (feed : Z -> Z -> list trade)
    (fuel : nat) (cp cp' : string) (start end_ : Z) (df : frame) :
  get_trades std_dev feed fuel cp start end_ = Some (Ok (cp', df)) ->
  cp' = cp /\ df <> [] /\ StronglySorted Z.le (map fst df) /\
  exists df0 reqs, fetch_loop std_dev feed fuel start end_ [] [] = Some (Ok (df0, reqs)) /\
    Permutation df0 df /\ (count_sum df == count_sum df0)%Q.
Proof.
  unfold get_trades.
  destruct (fetch_loop std_dev feed fuel start end_ [] []) as [[[df0 reqs]|e]|];
    try discriminate.
  destruct (sort_index df0) as [|p rest] eqn:S; [discriminate|].
  intros E. injection E as <- <-. rewrite <- S.
  split; [reflexivity|]. split; [rewrite S; discriminate|].
  split; [apply sort_index_sorted|].
  exists df0, reqs. split; [reflexivity|].
  pose proof (sort_index_perm df0) as P. split; [symmetry; exact P|].
  apply count_sum_perm, P.
Qed.

Lemma get_trades_result_witness :
  exists df, get_trades no_std ex_feed 5 "BTC_ETH" 0 100 = Some (Ok ("BTC_ETH"%string, df)) /\
    StronglySorted Z.le (map fst df).
Proof.
  destruct (get_trades no_std ex_feed 5 "BTC_ETH" 0 100) as [[[cp' df]|e]|] eqn:E;
    try (vm_compute in E; discriminate).
  destruct (get_trades_result no_std ex_feed 5 "BTC_ETH" cp' 0 100 df E) as [-> [_ [S _]]].
  exists df. split; [reflexivity|exact S].
Defined.

(** ** Further properties: the equity curve *)

Lemma length_cumprod_from (acc : Q) (xs : list (option Q)) :
  length (cumprod_from acc xs) = length xs.
Proof.
  revert acc; induction xs as [|[x|] xs IH]; intros acc; simpl; rewrite ?IH; reflexivity.
Qed.

Lemma cumprod_ratio (rest : list Q) : forall (prev acc : Q),
  ~ (prev == 0)%Q -> (forall t, In t rest -> ~ (t == 0)%Q) ->
  forall i t, nth_error rest i = Some t ->
  exists e, nth_error (cumprod_from acc
              (map (option_map (Qplus 1))
                 (map (fun '(prev, x) =>
                         if Qeq_bool prev 0 then None else Some (x / prev - 1)%Q)
                      (combine (prev :: rest) rest)))) i = Some (Some e) /\
            (e == acc * t / prev)%Q.
Proof.
  induction rest as [|t1 rest IH]; intros prev acc Hp Hr i t Ht; [destruct i; discriminate|].
  assert (Q0 : Qeq_bool prev 0 = false).
  { destruct (Qeq_bool prev 0) eqn:B; [|reflexivity]. apply Qeq_bool_iff in B. contradiction. }
  assert (H1 : ~ (t1 == 0)%Q) by (apply Hr; now left).
  simpl. rewrite Q0. simpl. destruct i as [|i].
  - simpl in Ht. injection Ht as <-. eexists. split; [reflexivity|]. field. exact Hp.
  - simpl in Ht. destruct (IH t1 (acc * (1 + (t1 / prev - 1)))%Q H1
                             (fun t Ht => Hr t (or_intror Ht)) i t Ht) as [e [E Q']].
    exists e. split; [exact E|]. rewrite Q'. field. split; assumption.
Qed.

(** X13. On holdings rows whose totals are not zero, the equity curve of
    [create_equity_curve_dataframe] starts with NaN (the first return is
    NaN) and its entry [i >= 1] is [total_i / total_0]; the total return of
    [output_summary_stats] is NaN for a single row and otherwise the last
    total over the first. *)
Theorem equity_curve_ratio (pf : portfolio) (t0 : Q) (rest : list Q) :
  (forall r, In r (pf_all_holdings pf) -> ~ (hr_total r == 0)%Q) ->
  map hr_total (pf_all_holdings pf) = t0 :: rest ->
  nth_error (equity_curve pf) 0 = Some None /\
  (forall i t, nth_error rest i = Some t ->
     exists e, nth_error (equity_curve pf) (S i) = Some (Some e) /\ (e == t / t0)%Q) /\
  (rest = [] -> total_return pf = Ok None) /\
  (forall t, last rest = Some t ->
     exists e, total_return pf = Ok (Some e) /\ (e == t / t0)%Q).
Proof.
  intros Hz Hm.
  assert (Nz : forall t, In t (t0 :: rest) -> ~ (t == 0)%Q).
  { intros t Ht. rewrite <- Hm in Ht. apply in_map_iff in Ht as [r [<- Hr]]. now apply Hz. }
  assert (E : equity_curve pf =
              None :: cumprod_from 1
                (map (option_map (Qplus 1))
                   (map (fun '(prev, x) =>
                           if Qeq_bool prev 0 then None else Some (x / prev - 1)%Q)
                        (combine (t0 :: rest) rest)))).
  { unfold equity_curve, curve_returns. rewrite Hm. reflexivity. }
  assert (R : forall i t, nth_error rest i = Some t ->
            exists e, nth_error (equity_curve pf) (S i) = Some (Some e) /\ (e == t / t0)%Q).
  { intros i t Ht. rewrite E. simpl.
    destruct (cumprod_ratio rest t0 1 (Nz t0 (or_introl eq_refl))
                (fun t Ht => Nz t (or_intror Ht)) i t Ht) as [e [Ee Qe]].
    exists e. split; [exact Ee|]. rewrite Qe. field. apply Nz. now left. }
  split; [rewrite E; reflexivity|]. split; [exact R|]. split.
  - intros ->. unfold total_return. rewrite E. reflexivity.
  - intros t Hl. destruct rest as [|t1 rest'] eqn:Er; [discriminate|].
    rewrite <- nth_error_pred_length_last in Hl.
    destruct (R _ _ Hl) as [e [Ee Qe]]. exists e. split; [|exact Qe].
    unfold total_return. rewrite <- nth_error_pred_length_last.
    assert (L : length (equity_curve pf) = S (length (t1 :: rest'))).
    { rewrite E. cbn [length]. rewrite length_cumprod_from, !length_map, length_combine.
      cbn [length]. lia. }
    rewrite L. simpl pred. cbn [pred length] in Ee. rewrite Ee. reflexivity.
Qed.

Lemma equity_curve_ratio_witness :
  let pf := match update_timeindex ex_replay2 (ex_pf_after ex_buy_fill) with
            | Ok pf => pf | Err _ => ex_pf end in
  exists e, total_return pf = Ok (Some e) /\ (e == 99999 # 100000)%Q.
Proof.
  intros pf.
  destruct (equity_curve_ratio pf 100000 [99999%Q]) as [_ [_ [_ T]]].
  - intros r Hr. vm_compute in Hr. destruct Hr as [<-|[<-|[]]]; vm_compute; discriminate.
  - vm_compute. reflexivity.
  - destruct (T 99999%Q eq_refl) as [e [Ee Qe]]. exists e. split; [exact Ee|].
    rewrite Qe. reflexivity.
Defined.

(** ** Further properties: [describe()] and the overlap merge *)

Lemma insert_Q_perm x l : Permutation (insert_Q x l) (x :: l).
Proof.
  induction l as [|a l IH]; simpl; [reflexivity|].
  destruct (Qle_bool x a); [reflexivity|].
  etransitivity; [apply perm_skip, IH|]. apply perm_swap.
Qed.

Lemma sort_Q_perm l : Permutation (sort_Q l) l.
Proof.
  induction l as [|a l IH]; [reflexivity|].
  unfold sort_Q in *; simpl. rewrite insert_Q_perm. apply perm_skip, IH.
Qed.

Lemma insert_Q_sorted x l : StronglySorted Qle l -> StronglySorted Qle (insert_Q x l).
Proof.
  induction l as [|a l IH]; intros S; simpl.
  - repeat constructor.
  - inversion S as [|? ? S' F]; subst. destruct (Qle_bool x a) eqn:E.
    + apply Qle_bool_iff in E. constructor; [exact S|]. constructor; [exact E|].
      eapply Forall_impl; [exact F|]. intros y Hy. eapply Qle_trans; eauto.
    + constructor; [apply IH, S'|]. apply List.Forall_forall. intros y Hy.
      apply (Permutation_in _ (insert_Q_perm x l)) in Hy. destruct Hy as [<-|Hy].
      * apply Qlt_le_weak, Qnot_le_lt. intros C. apply Qle_bool_iff in C. congruence.
      * rewrite List.Forall_forall in F. apply F, Hy.
Qed.

Lemma sort_Q_sorted l : StronglySorted Qle (sort_Q l).
Proof.
  induction l as [|a l IH]; [constructor|].
  unfold sort_Q in *; simpl. apply insert_Q_sorted, IH.
Qed.

Lemma sorted_nth_le s i j : StronglySorted Qle s -> (i <= j < length s)%nat ->
  (nth i s 0 <= nth j s 0)%Q.
Proof.
  revert i j. induction s as [|a s IH]; intros i j S H; simpl in H; [lia|].
  inversion S as [|? ? S' F]; subst. destruct i, j; simpl.
  - apply Qle_refl.
  - rewrite List.Forall_forall in F. apply F, nth_In. lia.
  - lia.
  - apply IH; [exact S'|lia].
Qed.

Lemma nth_Q_mono s a b : StronglySorted Qle s -> (0 <= a <= b)%Z ->
  (b < Z.of_nat (length s))%Z -> (nth_Q s a <= nth_Q s b)%Q.
Proof. intros S H1 H2. unfold nth_Q. apply sorted_nth_le; [exact S|lia]. Qed.

Lemma quantile_mono s p p' : StronglySorted Qle s -> (1 <= length s)%nat ->
  (0 <= p)%Q -> (p <= p')%Q -> (p' <= 1)%Q -> (quantile s p <= quantile s p')%Q.
Proof.
  intros S L P0 PP P1. unfold quantile.
  set (n := Z.of_nat (length s)).
  assert (Hn : (1 <= n)%Z) by (unfold n; lia).
  assert (N0 : (0 <= inject_Z (n - 1))%Q) by (change 0%Q with (inject_Z 0); rewrite <- Zle_Qle; lia).
  set (h := (inject_Z (n - 1) * p)%Q). set (h' := (inject_Z (n - 1) * p')%Q).
  assert (H0 : (0 <= h)%Q) by (unfold h; nra).
  assert (HH : (h <= h')%Q) by (unfold h, h'; nra).
  assert (H1 : (h' <= inject_Z (n - 1))%Q) by (unfold h'; nra).
  set (i := Qfloor h). set (i' := Qfloor h').
  assert (I0 : (0 <= i)%Z) by (apply (Qfloor_resp_le 0 h), H0).
  assert (II : (i <= i')%Z) by (apply Qfloor_resp_le, HH).
  assert (IN : (i' <= n - 1)%Z).
  { rewrite <- (Qfloor_Z (n - 1)). apply Qfloor_resp_le, H1. }
  assert (F0 : (0 <= h - inject_Z i)%Q) by (pose proof (Qfloor_le h); unfold i; lra).
  assert (F1 : (h - inject_Z i < 1)%Q).
  { pose proof (Qlt_floor h) as E. rewrite inject_Z_plus in E. change (inject_Z 1) with 1%Q in E. unfold i; lra. }
  assert (F0' : (0 <= h' - inject_Z i')%Q) by (pose proof (Qfloor_le h'); unfold i'; lra).
  destruct (Z.eq_dec i i') as [E|E].
  - rewrite <- E. destruct (i + 1 <? n)%Z eqn:B; [|apply Qle_refl].
    apply Z.ltb_lt in B.
    assert (A : (nth_Q s i <= nth_Q s (i + 1))%Q) by (apply nth_Q_mono; [exact S|lia|lia]).
    nra.
  - assert (B : (i + 1 <? n)%Z = true) by (apply Z.ltb_lt; lia). rewrite B.
    assert (A : (nth_Q s i <= nth_Q s (i + 1))%Q) by (apply nth_Q_mono; [exact S|lia|lia]).
    assert (A2 : (nth_Q s (i + 1) <= nth_Q s i')%Q) by (apply nth_Q_mono; [exact S|lia|lia]).
    apply Qle_trans with (nth_Q s (i + 1)); [nra|].
    apply Qle_trans with (nth_Q s i'); [exact A2|].
    destruct (i' + 1 <? n)%Z eqn:B'; [|apply Qle_refl].
    apply Z.ltb_lt in B'.
    assert (A3 : (nth_Q s i' <= nth_Q s (i' + 1))%Q) by (apply nth_Q_mono; [exact S|lia|lia]).
    nra.
Qed.

Lemma quantile_0 s : (1 <= length s)%nat -> (quantile s 0 == nth_Q s 0)%Q.
Proof.
  intros L. unfold quantile.
  rewrite (Qfloor_comp _ 0) by ring. change (Qfloor 0) with 0%Z.
  destruct (0 + 1 <? Z.of_nat (length s))%Z; [ring|reflexivity].
Qed.

Lemma quantile_1 s : (1 <= length s)%nat ->
  quantile s 1 = nth_Q s (Z.of_nat (length s) - 1).
Proof.
  intros L. unfold quantile.
  rewrite (Qfloor_comp _ (inject_Z (Z.of_nat (length s) - 1))) by ring.
  rewrite Qfloor_Z.
  replace (Z.of_nat (length s) - 1 + 1 <? Z.of_nat (length s))%Z with false
    by (symmetry; apply Z.ltb_ge; lia).
  reflexivity.
Qed.

Lemma sum_Q_bounds l m M : (forall x, In x l -> (m <= x <= M)%Q) ->
  (inject_Z (Z.of_nat (length l)) * m <= sum_Q l <= inject_Z (Z.of_nat (length l)) * M)%Q.
Proof.
  induction l as [|a l IH]; intros B; simpl.
  - unfold sum_Q; simpl. change (inject_Z (Z.of_nat 0)) with 0%Q. lra.
  - unfold sum_Q in *; simpl.
    rewrite Nat2Z.inj_succ. unfold Z.succ. rewrite inject_Z_plus.
    change (inject_Z 1) with 1%Q.
    assert (Ba : (m <= a <= M)%Q) by (apply B; left; reflexivity).
    assert (IH' := IH (fun x Hx => B x (or_intror Hx))). lra.
Qed.

(** X14. On a non-empty column, [describe()]'s [min] and [max] are values
    of the column and bound every value of it; the mean lies between them,
    and the linearly interpolated quartiles are ordered:
    [min <= 25% <= 50% <= 75% <= max]. *)
Theorem describe_order_statistics std xs : xs <> [] ->
  let d := describe std xs in
  In (s_min d) xs /\ In (s_max d) xs /\
  (forall x, In x xs -> (s_min d <= x <= s_max d)%Q) /\
  (s_min d <= s_mean d <= s_max d)%Q /\
  (s_min d <= s_p25 d)%Q /\ (s_p25 d <= s_p50 d)%Q /\
  (s_p50 d <= s_p75 d)%Q /\ (s_p75 d <= s_max d)%Q.
Proof.
  intros NE d.
  pose proof (sort_Q_perm xs) as P. pose proof (sort_Q_sorted xs) as S.
  set (s := sort_Q xs) in P, S.
  assert (LE : length s = length xs) by apply (Permutation_length P).
  assert (L : (1 <= length s)%nat) by (destruct xs; [congruence|]; rewrite LE; simpl; lia).
  assert (Dmin : s_min d = nth_Q s 0) by reflexivity.
  assert (Dmax : s_max d = nth_Q s (Z.of_nat (length s) - 1)) by (rewrite LE; reflexivity).
  assert (Bnd : forall x, In x xs -> (s_min d <= x <= s_max d)%Q).
  { intros x Hx. apply (Permutation_in _ (Permutation_sym P)) in Hx.
    destruct (In_nth s x 0%Q Hx) as [k [Hk <-]].
    rewrite Dmin, Dmax. unfold nth_Q.
    split; apply sorted_nth_le; (exact S || lia). }
  split; [|split; [|split; [exact Bnd|split]]].
  - rewrite Dmin. unfold nth_Q. apply (Permutation_in _ P), nth_In. simpl; lia.
  - rewrite Dmax. unfold nth_Q. apply (Permutation_in _ P), nth_In. lia.
  - pose proof (sum_Q_bounds xs _ _ Bnd) as [Lo Hi].
    assert (Pn : (0 < inject_Z (Z.of_nat (length xs)))%Q).
    { rewrite <- LE. change 0%Q with (inject_Z 0). rewrite <- Zlt_Qlt. lia. }
    change (s_mean d) with (sum_Q xs / inject_Z (Z.of_nat (length xs)))%Q.
    split.
    + apply Qle_shift_div_l; [exact Pn|]. rewrite Qmult_comm. exact Lo.
    + apply Qle_shift_div_r; [exact Pn|]. rewrite Qmult_comm. exact Hi.
  - change (s_p25 d) with (quantile s (1#4)). change (s_p50 d) with (quantile s (1#2)).
    change (s_p75 d) with (quantile s (3#4)).
    rewrite Dmin, <- (quantile_0 s L), Dmax, <- (quantile_1 s L).
    repeat split; apply quantile_mono; (exact S || exact L || (unfold Qle; simpl; lia)).
Qed.

Lemma sum_Q_app l1 l2 : (sum_Q (l1 ++ l2) == sum_Q l1 + sum_Q l2)%Q.
Proof.
  induction l1 as [|a l1 IH]; unfold sum_Q in *; simpl.
  - ring.
  - rewrite IH. ring.
Qed.

(** X15. When the overlap hour's two rows are the [describe()] rows of two
    non-empty groups of trades, the merged row of [get_trades] has, in every
    column, the count and the mean of [describe()] over the union of the two
    groups. *)
Theorem merge_rows_union_count_mean std (g1 g2 : list trade) :
  g1 <> [] -> g2 <> [] ->
  forall f,
  (s_count (merge_rows (fun f => describe std (map (field_value f) g1))
                       (fun f => describe std (map (field_value f) g2)) f)
     == s_count (describe std (map (field_value f) (g1 ++ g2))))%Q /\
  (s_mean (merge_rows (fun f => describe std (map (field_value f) g1))
                      (fun f => describe std (map (field_value f) g2)) f)
     == s_mean (describe std (map (field_value f) (g1 ++ g2))))%Q.
Proof.
  intros N1 N2 f.
  unfold merge_rows, set_count, stat_map, stat_zip, describe; cbn [s_count s_mean].
  rewrite !length_map, map_app, length_app, sum_Q_app, Nat2Z.inj_add, inject_Z_plus.
  assert (P1 : (0 < inject_Z (Z.of_nat (length g1)))%Q).
  { change 0%Q with (inject_Z 0). rewrite <- Zlt_Qlt. destruct g1; [congruence|simpl; lia]. }
  assert (P2 : (0 < inject_Z (Z.of_nat (length g2)))%Q).
  { change 0%Q with (inject_Z 0). rewrite <- Zlt_Qlt. destruct g2; [congruence|simpl; lia]. }
  split; [reflexivity|].
  field. split; [lra|split; lra].
Qed.

(** ** Further properties: the data handler constructor *)

Lemma get_trades_pair std feed fuel cp start end_ cp' df :
  get_trades std feed fuel cp start end_ = Some (Ok (cp', df)) -> cp' = cp.
Proof.
  unfold get_trades.
  destruct (fetch_loop std feed fuel start end_ [] []) as [[[df0 reqs]|e]|]; try discriminate.
  destruct (sort_index df0); congruence.
Qed.

Lemma get_all_market_data_ok std feed fuel ms start end_ :
  forall l, get_all_market_data std feed fuel ms start end_ = Some (Ok l) ->
  map fst l = ms /\
  forall m df, In (m, df) l -> get_trades std (feed m) fuel m start end_ = Some (Ok (m, df)).
Proof.
  induction ms as [|m ms IH]; intros l E; simpl in E.
  - injection E as <-. split; [reflexivity|]. intros ? ? [].
  - destruct (get_trades std (feed m) fuel m start end_) as [[[cp' df]|e]|] eqn:G;
      try discriminate.
    apply get_trades_pair in G as Hc. subst cp'.
    destruct (get_all_market_data std feed fuel ms start end_) as [[l'|e]|];
      try discriminate.
    injection E as <-. destruct (IH l' eq_refl) as [F H].
    split; [simpl; congruence|].
    intros m' df' [Q|Q]; [injection Q as <- <-; exact G|apply H, Q].
Qed.

Lemma list_to_map_In_fst {A} (l : list (string * A)) (m : string) :
  In m (map fst l) -> exists v, In (m, v) l /\ (list_to_map l : gmap string A) !! m = Some v.
Proof.
  induction l as [|[k v] l IH]; intros H; [destruct H|].
  simpl in H. rewrite list_to_map_cons. destruct (String.eq_dec k m) as [<-|D].
  - exists v. split; [left; reflexivity|]. apply lookup_insert_eq.
  - destruct H as [H|H]; [congruence|].
    destruct (IH H) as [v' [I L]]. exists v'. split; [right; exact I|].
    rewrite lookup_insert_ne by exact D. exact L.
Qed.

(** X16. When the [PoloniexDataHandler] constructor succeeds, it keeps the
    market list, starts with [continue_backtest] set, and for every market
    [m] holds the frame [poloniex.get_trades(m, start, end)] returned: as
    [market_data[m]], as the whole of what is left of its iterator, and an
    empty [latest_market_data[m]]. *)
Theorem new_data_handler_frames std feed fuel ms start end_ dh :
  new_data_handler std feed fuel ms start end_ = Some (Ok dh) ->
  dh_markets dh = ms /\ dh_continue_backtest dh = true /\
  forall m, In m ms -> exists df,
    get_trades std (feed m) fuel m start end_ = Some (Ok (m, df)) /\
    dh_market_data dh !! m = Some df /\ dh_market_snapshots dh !! m = Some df /\
    dh_latest_market_data dh !! m = Some [].
Proof.
  unfold new_data_handler.
  destruct (get_all_market_data std feed fuel ms start end_) as [[l|e]|] eqn:G;
    try discriminate.
  intros E. injection E as <-.
  destruct (get_all_market_data_ok std feed fuel ms start end_ l G) as [F H].
  split; [reflexivity|]. split; [reflexivity|].
  intros m Hm. rewrite <- F in Hm.
  destruct (list_to_map_In_fst l m Hm) as [df [I L]].
  exists df. split; [apply H, I|].
  assert (Hm' : In m ms) by (rewrite <- F; exact Hm).
  cbn [dh_market_data dh_market_snapshots dh_latest_market_data init_data_handler].
  rewrite !(list_to_map_graph_lookup _ ms m Hm'). unfold frame in L |- *. rewrite L.
  split; [reflexivity|split; reflexivity].
Qed.

Lemma new_data_handler_frames_witness :
  exists dh, new_data_handler no_std (fun _ => ex_feed) 5 ["BTC_ETH"%string] 0 100 = Some (Ok dh) /\
    exists df, get_trades no_std ex_feed 5 "BTC_ETH" 0 100 = Some (Ok ("BTC_ETH"%string, df)) /\
      dh_market_data dh !! "BTC_ETH"%string = Some df.
Proof.
  destruct (new_data_handler no_std (fun _ => ex_feed) 5 ["BTC_ETH"%string] 0 100)
    as [[dh|e]|] eqn:E; try (vm_compute in E; discriminate).
  destruct (new_data_handler_frames no_std (fun _ => ex_feed) 5 ["BTC_ETH"%string] 0 100 dh E)
    as [_ [_ H]].
  destruct (H "BTC_ETH"%string (or_introl eq_refl)) as [df [G [D _]]].
  exists dh. split; [reflexivity|]. exists df. split; [exact G|exact D].
Defined.

(** X17. The [PoloniexDataHandler] constructor raises exception [e] exactly
    when, in the order of the market list, every market before some market
    [m] was fetched by [get_trades], and [get_trades] for [m] raises [e]:
    the first failing fetch's exception escapes. *)
Theorem new_data_handler_error std feed fuel ms start end_ e :
  new_data_handler std feed fuel ms start end_ = Some (Err e) <->
  exists pre m post, ms = pre ++ m :: post /\
    (forall m', In m' pre -> exists df,
       get_trades std (feed m') fuel m' start end_ = Some (Ok (m', df))) /\
    get_trades std (feed m) fuel m start end_ = Some (Err e).
Proof.
  assert (A : new_data_handler std feed fuel ms start end_ = Some (Err e) <->
              get_all_market_data std feed fuel ms start end_ = Some (Err e)).
  { unfold new_data_handler.
    destruct (get_all_market_data std feed fuel ms start end_) as [[l|e']|];
      split; congruence. }
  rewrite A. clear A. split.
  - revert e. induction ms as [|m ms IH]; intros e E; simpl in E; [discriminate|].
    destruct (get_trades std (feed m) fuel m start end_) as [[[cp' df]|e']|] eqn:G;
      try discriminate.
    + apply get_trades_pair in G as Hc. subst cp'.
      destruct (get_all_market_data std feed fuel ms start end_) as [[l'|e']|] eqn:G';
        try discriminate.
      injection E as <-. destruct (IH e' eq_refl) as [pre [m0 [post [-> [Hp He]]]]].
      exists (m :: pre), m0, post. split; [reflexivity|]. split; [|exact He].
      intros m' [<-|Hm']; [exists df; exact G|apply Hp, Hm'].
    + injection E as <-. exists [], m, ms. split; [reflexivity|]. split; [intros ? []|exact G].
  - intros [pre [m [post [-> [Hp He]]]]]. revert Hp.
    induction pre as [|p pre IH]; intros Hp; simpl.
    + rewrite He. reflexivity.
    + destruct (Hp p (or_introl eq_refl)) as [df G]. rewrite G.
      rewrite IH; [reflexivity|]. intros m' Hm'. apply Hp. right. exact Hm'.
Qed.

Lemma describe_order_statistics_witness :
  [3; 1; 2]%Q <> [] /\
  let d := describe no_std [3; 1; 2]%Q in
  In (s_min d) [3; 1; 2]%Q /\ In (s_max d) [3; 1; 2]%Q /\
  (forall x, In x [3; 1; 2]%Q -> (s_min d <= x <= s_max d)%Q) /\
  (s_min d <= s_mean d <= s_max d)%Q /\
  (s_min d <= s_p25 d)%Q /\ (s_p25 d <= s_p50 d)%Q /\
  (s_p50 d <= s_p75 d)%Q /\ (s_p75 d <= s_max d)%Q.
Proof.
  split; [discriminate|].
  apply (describe_order_statistics no_std [3; 1; 2]%Q). discriminate.
Defined.

Lemma merge_rows_union_count_mean_witness :
  ex_old_page <> [] /\ ex_new_page <> [] /\
  (s_count (merge_rows (fun f => describe no_std (map (field_value f) ex_old_page))
                       (fun f => describe no_std (map (field_value f) ex_new_page)) FRate)
     == s_count (describe no_std (map (field_value FRate) (ex_old_page ++ ex_new_page))))%Q /\
  (s_mean (merge_rows (fun f => describe no_std (map (field_value f) ex_old_page))
                      (fun f => describe no_std (map (field_value f) ex_new_page)) FRate)
     == s_mean (describe no_std (map (field_value FRate) (ex_old_page ++ ex_new_page))))%Q.
Proof.
  assert (N1 : ex_old_page <> []) by (unfold ex_old_page; discriminate).
  assert (N2 : ex_new_page <> []) by (unfold ex_new_page; discriminate).
  split; [exact N1|]. split; [exact N2|].
  exact (merge_rows_union_count_mean no_std ex_old_page ex_new_page N1 N2 FRate).
Defined.
